(** * Conversational memory of the companion chat application

    A shallow embedding of [src/lib/memory.ts] (the [MemoryManager] class)
    and of [src/app/api/chat/[chatId]/route.ts] (the prompt template, the
    repetition check and the [POST] handler), with the properties of the
    specification stated and proved on that embedding.

    Conventions of the model.
    - A JavaScript string is a [string] of the Standard Library; one
      character of the model is one UTF-16 code unit below 256, so the
      white-space and letter-case tables below are those of ECMAScript
      restricted to that range.
    - A JavaScript number that the code only uses on integers (scores, word
      counts, the clock in milliseconds) is a [Z] or a [nat]; the two places
      where the code multiplies or divides by a decimal constant are written
      with exact rationals, and the comment at each says why the IEEE double
      computation decides the same way.
    - [Date.now()] is an explicit argument [now].
    - The Redis store behind [this.history] is a finite map from keys to
      sorted sets; a sorted set is a finite map from members to scores, as
      the commands ZADD, ZRANGE ... BYSCORE and EXISTS define it. The store
      answers every command.
    - The client of the store ([Redis.fromEnv()] of @upstash/redis, with its
      automatic deserialization left on) sends a string as it is and hands
      each member of a reply back as [JSON.parse] of it when it parses, and
      as the string it is when it does not. [JSON.parse] and the printing of
      its values by [Array.prototype.join] are modelled in full; the values
      hold their strings by code unit, and a text read from the store is
      brought back to the alphabet of the model at the end.
    - The rate limiter, the relational store, the vector store and the
      language model are taken by the outcome of each call; a call that can
      reject or throw returns a [completion].
    - [MemoryManager.getInstance] hands out one manager over one store; the
      store is the state that the methods below pass along. *)

From Stdlib Require Import Strings.Ascii QArith.QArith QArith.Qround.
From stdpp Require Import gmap strings list fin_maps sorting.

Local Open Scope Z_scope.

(** ** JavaScript values and completions *)

(** The values the modelled functions return to their callers. *)
Inductive jsval : Type :=
| JUndefined
| JNull
| JBool (b : bool)
| JNum (n : Z)
| JStr (s : string).

(** The outcome of a call: a value, or a thrown error (a rejected promise
    once awaited). *)
Inductive completion (A : Type) : Type :=
| Normal (a : A)
| Throw (e : string).
Arguments Normal {A} a.
Arguments Throw {A} e.

#[global] Instance completion_ret : MRet completion := λ A a, Normal a.

#[global] Instance completion_bind : MBind completion := λ A B k c,
  match c with
  | Normal a => k a
  | Throw e => Throw e
  end.

(** ** Strings *)

Module JsString.

Definition nl : string := String (ascii_of_nat 10) EmptyString.

(** [\s] of ECMAScript on code units below 256: TAB, LF, VT, FF, CR, SP
    and NBSP. *)
Definition isWhiteSpace (c : ascii) : bool :=
  let n := nat_of_ascii c in
  ((9 <=? n) && (n <=? 13) || (n =? 32) || (n =? 160))%nat.

(** [String.prototype.toLowerCase] on code units below 256: A-Z and the
    Latin-1 capitals (all of U+00C0..U+00DE but the multiplication sign). *)
Definition toLowerCase_char (c : ascii) : ascii :=
  let n := nat_of_ascii c in
  if ((65 <=? n) && (n <=? 90) ||
      (192 <=? n) && (n <=? 222) && negb (n =? 215))%nat
  then ascii_of_nat (n + 32)
  else c.

Fixpoint toLowerCase (s : string) : string :=
  match s with
  | EmptyString => EmptyString
  | String c s' => String (toLowerCase_char c) (toLowerCase s')
  end.

(** Puts [c] in front of the piece that is being read. *)
Definition cons_piece (c : ascii) (ps : list string) : list string :=
  match ps with
  | p :: ps' => String c p :: ps'
  | [] => [String c EmptyString]
  end.

(** [s.split(/\s+/)]: the pieces between the maximal runs of white space;
    [in_ws] says that the previous character belonged to such a run. *)
Fixpoint split_ws_go (in_ws : bool) (s : string) : list string :=
  match s with
  | EmptyString => [EmptyString]
  | String c s' =>
      if isWhiteSpace c
      then if in_ws then split_ws_go true s'
           else EmptyString :: split_ws_go true s'
      else cons_piece c (split_ws_go false s')
  end.

Definition split_ws (s : string) : list string := split_ws_go false s.

(** [s.split(sep)] for a non-empty string [sep]: [skip] counts the
    characters of a matched separator that are still to be passed. *)
Fixpoint split_go (sep : string) (skip : nat) (s : string) : list string :=
  match s with
  | EmptyString => [EmptyString]
  | String c s' =>
      match skip with
      | S k => split_go sep k s'
      | O =>
          if String.prefix sep s
          then EmptyString :: split_go sep (String.length sep - 1) s'
          else cons_piece c (split_go sep 0 s')
      end
  end.

(** [s.split(sep)]; an empty separator splits into code units. *)
Definition split (sep s : string) : list string :=
  match sep with
  | EmptyString =>
      (λ c, String c EmptyString) <$> String.list_ascii_of_string s
  | _ => split_go sep 0 s
  end.

(** [ls.join(sep)]. *)
Definition join (sep : string) (ls : list string) : string :=
  String.concat sep ls.

(** [l.slice(-n)]: the last [n] elements. *)
Definition slice_last {A} (n : nat) (l : list A) : list A :=
  drop (length l - n) l.

(** [l.slice(0, n)]. *)
Definition slice_first {A} (n : nat) (l : list A) : list A := take n l.

Fixpoint trimStart (s : string) : string :=
  match s with
  | EmptyString => EmptyString
  | String c s' => if isWhiteSpace c then trimStart s' else s
  end.

Definition trim (s : string) : string :=
  String.rev (trimStart (String.rev (trimStart s))).

End JsString.
Import JsString.

(** ** Numbers: IEEE doubles and their decimal form *)

(** [JSON.parse] reads a number as the double nearest to its decimal, and
    [join] prints a double by [Number.prototype.toString]: the shortest
    decimal that reads back as the same double. Both are computed on
    exact integers. *)
Module Double.

(** A double that JSON text can denote: a zero, a finite value
    [m * 2^e], or an infinity (a literal too large for a double). *)
Inductive double : Type :=
| Zero (negative : bool)
| Finite (negative : bool) (m : positive) (e : Z)
| Infinity (negative : bool).

(** The integer nearest to [n / d], the even one at a tie. *)
Definition round_half_even (n d : Z) : Z :=
  let q := n / d in
  let r := n mod d in
  match 2 * r ?= d with
  | Lt => q
  | Gt => q + 1
  | Eq => if Z.even q then q else q + 1
  end.

(** [k] with [2^k <= n / d < 2^(k+1)], for positive [n] and [d]. *)
Definition floor_log2 (n d : Z) : Z :=
  let k := Z.log2 n - Z.log2 d in
  if (d * 2 ^ Z.max k 0 <=? n * 2 ^ Z.max (- k) 0) then k else k - 1.

(** The double nearest to the positive rational [n / d], ties to the even
    mantissa: 53 bits of mantissa, the exponent of the last bit at least
    -1074, and infinity from 2^1024 on. *)
Definition round (negative : bool) (n d : Z) : double :=
  let k := floor_log2 n d in
  let e := Z.max (k - 52) (-1074) in
  let m := round_half_even (n * 2 ^ Z.max (- e) 0) (d * 2 ^ Z.max e 0) in
  match m with
  | Zpos p =>
      if 1024 <=? Z.log2 m + e then Infinity negative
      else Finite negative p e
  | _ => Zero negative
  end.

(** The number of decimal digits of [n]. *)
Definition nb_digits (n : N) : Z :=
  Z.of_nat (Decimal.nb_digits (N.to_uint n)).

(** The double of the decimal [digits * 10^e10]. A value of 10^310 or more
    is beyond every double and one below 10^-330 is below half the least
    double; the powers of ten in between are computed exactly. *)
Definition of_decimal (negative : bool) (digits : N) (e10 : Z) : double :=
  match digits with
  | N0 => Zero negative
  | Npos _ =>
      let magnitude := nb_digits digits + e10 in
      if 310 <? magnitude then Infinity negative
      else if magnitude <? -330 then Zero negative
      else if 0 <=? e10 then round negative (Z.of_N digits * 10 ^ e10) 1
      else round negative (Z.of_N digits) (10 ^ (- e10))
  end.

(** Two doubles are the same number. *)
Definition same (x y : double) : bool :=
  match x, y with
  | Finite _ m1 e1, Finite _ m2 e2 =>
      Zpos m1 * 2 ^ Z.max (e1 - e2) 0 =? Zpos m2 * 2 ^ Z.max (e2 - e1) 0
  | Zero _, Zero _ => true
  | Infinity _, Infinity _ => true
  | _, _ => false
  end.

Fixpoint uint_string (d : Decimal.uint) : string :=
  match d with
  | Decimal.Nil => ""
  | Decimal.D0 d => String "0" (uint_string d)
  | Decimal.D1 d => String "1" (uint_string d)
  | Decimal.D2 d => String "2" (uint_string d)
  | Decimal.D3 d => String "3" (uint_string d)
  | Decimal.D4 d => String "4" (uint_string d)
  | Decimal.D5 d => String "5" (uint_string d)
  | Decimal.D6 d => String "6" (uint_string d)
  | Decimal.D7 d => String "7" (uint_string d)
  | Decimal.D8 d => String "8" (uint_string d)
  | Decimal.D9 d => String "9" (uint_string d)
  end.

(** The decimal digits of a natural number. *)
Definition decimal (n : N) : string := uint_string (N.to_uint n).

Fixpoint zeros (n : nat) : string :=
  match n with
  | O => ""
  | S n => String "0" (zeros n)
  end.

(** The digits of the shortest decimal that reads back as [m * 2^e]: with
    [n] the position of the decimal point ([10^(n-1) <= m * 2^e < 10^n])
    the lengths [k], [k+1], ..., 17 are tried in turn; of the two decimals
    of [k] digits around the value that read back as it, the nearer one is
    taken, the even one at a tie. *)
Fixpoint shortest (tries : nat) (k : Z) (m : positive) (e n : Z) : Z * Z :=
  let num := Zpos m * 2 ^ Z.max e 0 * 10 ^ Z.max (k - n) 0 in
  let den := 2 ^ Z.max (- e) 0 * 10 ^ Z.max (n - k) 0 in
  let lo := num / den in
  let hi := lo + 1 in
  let reads_back s :=
    same (of_decimal false (Z.to_N s) (n - k)) (Finite false m e) in
  match tries with
  | O => (round_half_even num den, n - k)
  | S tries =>
      match reads_back lo, reads_back hi with
      | true, true =>
          match 2 * num ?= (lo + hi) * den with
          | Lt => (lo, n - k)
          | Gt => (hi, n - k)
          | Eq => (if Z.even lo then lo else hi, n - k)
          end
      | true, false => (lo, n - k)
      | false, true => (hi, n - k)
      | false, false => shortest tries (k + 1) m e n
      end
  end.

(** [s * 10^p] without the zeros at the end of [s]. *)
Fixpoint strip_zeros (fuel : nat) (s p : Z) : Z * Z :=
  match fuel with
  | O => (s, p)
  | S fuel =>
      if (0 <? s) && (s mod 10 =? 0) then strip_zeros fuel (s / 10) (p + 1)
      else (s, p)
  end.

(** [Number.prototype.toString()] of a finite positive double: the digits
    [s], their number [k] and the position [n] of the point, written
    without an exponent when [-6 < n <= 21] and with one otherwise. The
    search starts from the position of the point in the value itself,
    which is read off the number of digits of its integer part after a
    shift by 400 places (the least double is above 10^-324). *)
Definition positive_toString (m : positive) (e : Z) : string :=
  let scaled := Zpos m * 2 ^ Z.max e 0 * 10 ^ 400 / 2 ^ Z.max (- e) 0 in
  let '(s0, p0) := shortest 17 1 m e (nb_digits (Z.to_N scaled) - 400) in
  let '(s, p) := strip_zeros 20 s0 p0 in
  let digits := decimal (Z.to_N s) in
  let k := Z.of_nat (String.length digits) in
  let n := p + k in
  let exponent x :=
    (if 0 <=? x then "e+" else "e-") +:+ decimal (Z.to_N (Z.abs x)) in
  if (k <=? n) && (n <=? 21) then digits +:+ zeros (Z.to_nat (n - k))
  else if (0 <? n) && (n <=? 21) then
    String.substring 0 (Z.to_nat n) digits +:+ "." +:+
    String.substring (Z.to_nat n) (Z.to_nat (k - n)) digits
  else if (-6 <? n) && (n <=? 0) then
    "0." +:+ zeros (Z.to_nat (- n)) +:+ digits
  else if k =? 1 then digits +:+ exponent (n - 1)
  else
    String.substring 0 1 digits +:+ "." +:+
    String.substring 1 (Z.to_nat (k - 1)) digits +:+ exponent (n - 1).

Definition toString (x : double) : string :=
  match x with
  | Zero _ => "0"
  | Infinity negative => (if negative then "-" else "") +:+ "Infinity"
  | Finite negative m e =>
      (if negative then "-" else "") +:+ positive_toString m e
  end.

End Double.

(** ** JSON text and the values it denotes *)

Module Json.

(** A JavaScript string as the sequence of its code units. *)
Definition units_of (s : string) : list N :=
  N_of_ascii <$> String.list_ascii_of_string s.

(** The string of the model with these code units; a unit of 256 or more
    has no character in the model and is kept by its low byte. *)
Definition string_of (us : list N) : string :=
  String.string_of_list_ascii (ascii_of_N <$> us).

#[local] Unset Elimination Schemes.

(** What [JSON.parse] returns. *)
Inductive value : Type :=
| VNull
| VBool (b : bool)
| VNumber (x : Double.double)
| VString (s : list N)
| VArray (items : list value)
| VObject (fields : list (list N * value)).

#[local] Set Elimination Schemes.

(** *** The tokens *)

(** The white space of JSON: space, TAB, LF and CR. *)
Definition is_ws (c : ascii) : bool :=
  let n := N_of_ascii c in
  ((n =? 32) || (n =? 9) || (n =? 10) || (n =? 13))%N.

Definition digit (c : ascii) : option N :=
  let n := N_of_ascii c in
  if ((48 <=? n) && (n <=? 57))%N then Some (n - 48)%N else None.

Definition hex (c : ascii) : option N :=
  let n := N_of_ascii c in
  if ((48 <=? n) && (n <=? 57))%N then Some (n - 48)%N
  else if ((65 <=? n) && (n <=? 70))%N then Some (n - 55)%N
  else if ((97 <=? n) && (n <=? 102))%N then Some (n - 87)%N
  else None.

(** The code unit of an escape of one character: quote, backslash, slash,
    b, f, n, r and t. *)
Definition escape (c : ascii) : option N :=
  let n := N_of_ascii c in
  if ((n =? 34) || (n =? 92) || (n =? 47))%N then Some n
  else if (n =? 98)%N then Some 8%N
  else if (n =? 102)%N then Some 12%N
  else if (n =? 110)%N then Some 10%N
  else if (n =? 114)%N then Some 13%N
  else if (n =? 116)%N then Some 9%N
  else None.

(** A string after its opening quote: its code units, and the number of
    characters read, the closing quote included. A control character is
    an error, and so is an escape that is none of the above and not [u]
    with four hexadecimal digits. *)
Fixpoint string_body (s : string) : option (list N * nat) :=
  match s with
  | EmptyString => None
  | String c s' =>
      let n := N_of_ascii c in
      if (n =? 34)%N then Some ([], 1%nat)
      else if (n =? 92)%N then
        match s' with
        | EmptyString => None
        | String e s'' =>
            match escape e with
            | Some u =>
                '(us, k) ← string_body s''; Some (u :: us, (2 + k)%nat)
            | None =>
                if (N_of_ascii e =? 117)%N then
                  match s'' with
                  | String h1 (String h2 (String h3 (String h4 r))) =>
                      a ← hex h1; b ← hex h2; c ← hex h3; d ← hex h4;
                      '(us, k) ← string_body r;
                      Some ((((a * 16 + b) * 16 + c) * 16 + d)%N :: us,
                            (6 + k)%nat)
                  | _ => None
                  end
                else None
            end
        end
      else if (n <? 32)%N then None
      else '(us, k) ← string_body s'; Some (n :: us, (1 + k)%nat)
  end.

(** The digits at the front of a text: the number they write after [acc],
    and how many they are. *)
Fixpoint digits (acc : N) (s : string) : N * nat :=
  match s with
  | EmptyString => (acc, 0%nat)
  | String c s' =>
      match digit c with
      | Some d => let '(v, k) := digits (acc * 10 + d)%N s' in (v, S k)
      | None => (acc, 0%nat)
      end
  end.

Fixpoint skip (n : nat) (s : string) : string :=
  match n, s with
  | S n, String _ s' => skip n s'
  | _, _ => s
  end.

Definition starts_with (c : string) (s : string) : bool := String.prefix c s.

(** The integer part: a single 0, or digits that do not start with 0. *)
Definition integer_part (s : string) : option (N * nat) :=
  match s with
  | String c _ =>
      match digit c with
      | Some 0%N => Some (0%N, 1%nat)
      | Some _ => Some (digits 0 s)
      | None => None
      end
  | EmptyString => None
  end.

(** The fraction: nothing, or a point and at least one digit. Answers the
    digits so far with those of the fraction, the number of the latter,
    and the characters read. *)
Definition fraction_part (int : N) (s : string) : option (N * nat * nat) :=
  if starts_with "." s then
    let '(v, k) := digits int (skip 1 s) in
    match k with
    | O => None
    | S _ => Some (v, k, S k)
    end
  else Some (int, 0%nat, 0%nat).

(** The exponent: nothing, or [e] or [E], a sign or none, and at least one
    digit. *)
Definition exponent_part (s : string) : option (Z * nat) :=
  if starts_with "e" s || starts_with "E" s then
    let s1 := skip 1 s in
    let negative := starts_with "-" s1 in
    let signed := negative || starts_with "+" s1 in
    let '(v, k) := digits 0 (if signed then skip 1 s1 else s1) in
    match k with
    | O => None
    | S _ =>
        Some (if negative then - Z.of_N v else Z.of_N v,
              ((if signed then 2 else 1) + k)%nat)
    end
  else Some (0, 0%nat).

(** A number at the front of a text: its double and the characters read. *)
Definition number (s : string) : option (Double.double * nat) :=
  let negative := starts_with "-" s in
  let s1 := if negative then skip 1 s else s in
  '(int, ki) ← integer_part s1;
  '(all, kf, kfr) ← fraction_part int (skip ki s1);
  '(e10, ke) ← exponent_part (skip (ki + kfr) s1);
  Some (Double.of_decimal negative all (e10 - Z.of_nat kf),
        ((if negative then 1 else 0) + ki + kfr + ke)%nat).

(** *** The parser *)

(** An array or an object that is being read: what it holds so far, last
    first, and for an object the key whose value is awaited. *)
Inductive frame : Type :=
| FArray (items : list value)
| FObject (fields : list (list N * value)) (key : list N).

(** What may come next. *)
Inductive expect : Type :=
| Value
| ValueOrEnd
| KeyOrEnd
| Key
| Colon
| CommaOrEnd
| End (v : value).

(** A value is complete: it is the value of the text, or goes into the
    innermost array or object. *)
Definition complete (v : value) (stack : list frame) : expect * list frame :=
  match stack with
  | [] => (End v, [])
  | FArray items :: stack' => (CommaOrEnd, FArray (v :: items) :: stack')
  | FObject fields key :: stack' =>
      (CommaOrEnd, FObject ((key, v) :: fields) key :: stack')
  end.

Definition after (k : nat) (v : value) (stack : list frame)
    : option (nat * expect * list frame) :=
  Some (k, (complete v stack).1, (complete v stack).2).

(** The start of a value at the character [c], followed by [rest]: what
    comes next and how many characters of [rest] belong to the token. *)
Definition value_start (stack : list frame) (c : ascii) (rest : string)
    : option (nat * expect * list frame) :=
  let n := N_of_ascii c in
  if (n =? 91)%N then Some (0%nat, ValueOrEnd, FArray [] :: stack)
  else if (n =? 123)%N then Some (0%nat, KeyOrEnd, FObject [] [] :: stack)
  else if (n =? 34)%N then
    '(us, k) ← string_body rest; after k (VString us) stack
  else if (n =? 45)%N || bool_decide (is_Some (digit c)) then
    '(x, k) ← number (String c rest); after (k - 1) (VNumber x) stack
  else if (n =? 116)%N then
    if starts_with "rue" rest then after 3 (VBool true) stack else None
  else if (n =? 102)%N then
    if starts_with "alse" rest then after 4 (VBool false) stack else None
  else if (n =? 110)%N then
    if starts_with "ull" rest then after 3 VNull stack else None
  else None.

Definition key_start (stack : list frame) (c : ascii) (rest : string)
    : option (nat * expect * list frame) :=
  if (N_of_ascii c =? 34)%N then
    '(us, k) ← string_body rest;
    match stack with
    | FObject fields _ :: stack' => Some (k, Colon, FObject fields us :: stack')
    | _ => None
    end
  else None.

Definition step (ex : expect) (stack : list frame) (c : ascii) (rest : string)
    : option (nat * expect * list frame) :=
  let n := N_of_ascii c in
  match ex with
  | Value => value_start stack c rest
  | ValueOrEnd =>
      if (n =? 93)%N then
        match stack with
        | FArray items :: stack' => after 0 (VArray (reverse items)) stack'
        | _ => None
        end
      else value_start stack c rest
  | KeyOrEnd =>
      if (n =? 125)%N then
        match stack with
        | FObject fields _ :: stack' => after 0 (VObject (reverse fields)) stack'
        | _ => None
        end
      else key_start stack c rest
  | Key => key_start stack c rest
  | Colon => if (n =? 58)%N then Some (0%nat, Value, stack) else None
  | CommaOrEnd =>
      match stack with
      | FArray items :: stack' =>
          if (n =? 44)%N then Some (0%nat, Value, stack)
          else if (n =? 93)%N then after 0 (VArray (reverse items)) stack'
          else None
      | FObject fields _ :: stack' =>
          if (n =? 44)%N then Some (0%nat, Key, stack)
          else if (n =? 125)%N then after 0 (VObject (reverse fields)) stack'
          else None
      | [] => None
      end
  | End _ => None
  end.

(** The text is read character by character; [pending] counts the
    characters of the token read last that are still to be passed. *)
Fixpoint read (pending : nat) (ex : expect) (stack : list frame) (s : string)
    : option value :=
  match s with
  | EmptyString =>
      match ex with
      | End v => Some v
      | _ => None
      end
  | String c rest =>
      match pending with
      | S k => read k ex stack rest
      | O =>
          if is_ws c then read 0 ex stack rest
          else
            match step ex stack c rest with
            | Some (k, ex', stack') => read k ex' stack' rest
            | None => None
            end
      end
  end.

(** [JSON.parse(s)]; [None] is a [SyntaxError]. *)
Definition parse (s : string) : option value := read 0 Value [] s.

(** *** Printing *)

Fixpoint mapM {A B} (f : A → completion B) (l : list A) : completion (list B) :=
  match l with
  | [] => Normal []
  | x :: rest => y ← f x; ys ← mapM f rest; Normal (y :: ys)
  end.

Fixpoint intercalate (sep : list N) (texts : list (list N)) : list N :=
  match texts with
  | [] => []
  | [t] => t
  | t :: rest => t ++ sep ++ intercalate sep rest
  end.

(** An object that JSON text denotes has an own field [toString] when the
    text names one. *)
Definition has_toString (fields : list (list N * value)) : bool :=
  existsb (λ f, bool_decide (f.1 = units_of "toString")) fields.

(** [ToString(v)]. An array prints as its [join(",")]; in a join, [null]
    gives no text. An object prints through [Object.prototype.toString],
    unless it has an own field [toString]: the value of the field is not a
    function, [valueOf] answers the object itself, and a [TypeError] is
    thrown. *)
Fixpoint toString (v : value) : completion (list N) :=
  match v with
  | VNull => Normal (units_of "null")
  | VBool b => Normal (units_of (if b then "true" else "false"))
  | VNumber x => Normal (units_of (Double.toString x))
  | VString s => Normal s
  | VArray items =>
      texts ← mapM (λ x, match x with
                         | VNull => Normal []
                         | _ => toString x
                         end) items;
      Normal (intercalate (units_of ",") texts)
  | VObject fields =>
      if has_toString fields then Throw "TypeError"
      else Normal (units_of "[object Object]")
  end.

(** [l.join(sep)] for an array of such values, by code unit. *)
Definition join_units (sep : string) (l : list value) : completion (list N) :=
  texts ← mapM (λ x, match x with
                     | VNull => Normal []
                     | _ => toString x
                     end) l;
  Normal (intercalate (units_of sep) texts).


(** [l.join(sep)] as a string of the model. *)
Definition join (sep : string) (l : list value) : completion string :=
  us ← join_units sep l; Normal (string_of us).

End Json.


(** ** [truncateText] (memory.ts, inside [vectorSearch]) *)

(** The decimal constant 1.3. *)
Definition token_factor : Q := 13 # 10.

(** [words.length * 1.3]. The product is taken in exact rationals: for a
    word count below 2^53 the double product is within one rounding of it,
    and no integer multiple of 1.3 is that close to 8000 (6153 words give
    7998.9 and 6154 give 8000.2), so the comparison below decides alike. *)
Definition estimatedTokens (words : list string) : Q :=
  (inject_Z (Z.of_nat (length words)) * token_factor)%Q.

(** [Math.floor(maxTokens / 1.3)]. *)
Definition targetWords (maxTokens : Z) : nat :=
  Z.to_nat (Qfloor (inject_Z maxTokens / token_factor)%Q).

Definition truncateText_max (text : string) (maxTokens : Z) : string :=
  let words := split_ws text in
  if Qle_bool (estimatedTokens words) (inject_Z maxTokens)
  then text
  else join " " (slice_first (targetWords maxTokens) words).

(** The call of the source leaves [maxTokens] at its default. *)
Definition truncateText (text : string) : string :=
  truncateText_max text 8000.

(** ** [createPromptTemplate] (route.ts) *)

Definition no_repetition_rule : string :=
  "2. NO REPETITION: Don't repeat phrases from your recent messages shown above".

Definition createPromptTemplate
    (name instructions messageHistory : string)
    (isRepetitive : bool) (lastResponse prompt : string) : string :=
  let recentMessages :=
    slice_last 6
      (filter (λ line, (0 < String.length (trim line))%nat)
         (slice_last 12 (split nl messageHistory))) in
  "<|system|>" +:+ nl +:+
  "You are " +:+ name +:+
    ". Stay focused on the current topic of discussion." +:+ nl +:+
  nl +:+
  "Core Identity:" +:+ nl +:+
  instructions +:+ nl +:+
  nl +:+
  "CONVERSATION HISTORY (Last 3 exchanges):" +:+ nl +:+
  join nl recentMessages +:+ nl +:+
  nl +:+
  "CURRENT TOPIC: " +:+ prompt +:+ nl +:+
  nl +:+
  "RULES:" +:+ nl +:+
  "1. STAY ON TOPIC: The user is asking about " +:+ prompt +:+
    ". Do NOT talk about yourself unless specifically asked" +:+ nl +:+
  no_repetition_rule +:+ nl +:+
  "3. MEMORY ACTIVE: Reference the conversation history to maintain context"
    +:+ nl +:+
  "4. FOCUSED RESPONSE: Address the current question directly" +:+ nl +:+
  nl +:+
  "Current question: " +:+ prompt +:+ nl +:+
  "Response as " +:+ name +:+ ", focusing ONLY on the asked topic:" +:+ nl +:+
  "<|assistant|>".

(** ** The history store: Redis sorted sets *)

Module Redis.

(** A sorted set maps each member to its one score; a database maps each
    key to its sorted set. A key that holds no sorted set is absent. *)
Abbreviation zset := (gmap string Z).
Abbreviation db := (gmap string (gmap string Z)).

Definition zset_of (key : string) (d : db) : zset := default ∅ (d !! key).

(** ZADD key score member: adds the member, or moves a member that is
    there to the new score; answers the number of members added. *)
Definition zadd (key : string) (score : Z) (member : string) (d : db)
    : Z * db :=
  let zs := zset_of key d in
  (if zs !! member is Some _ then 0 else 1,
   <[key := <[member := score]> zs]> d).

(** The order of a sorted set: by score, members of one score by their
    characters. *)
Definition entry_le (a b : string * Z) : Prop :=
  a.2 < b.2 ∨ (a.2 = b.2 ∧ String.le a.1 b.1).

#[global] Instance entry_le_dec : RelDecision entry_le.
Proof. intros a b. unfold entry_le. apply _. Defined.

(** The entries of a key, lowest score first. *)
Definition entries (key : string) (d : db) : list (string * Z) :=
  merge_sort entry_le (map_to_list (zset_of key d)).

(** ZRANGE key min max BYSCORE: the members whose score lies in
    [min, max], lowest score first. *)
Definition zrange_byScore (key : string) (min max : Z) (d : db)
    : list string :=
  fst <$> filter (λ e, min ≤ e.2 ≤ max) (entries key d).

(** ZCARD key. *)
Definition zcard (key : string) (d : db) : nat := size (zset_of key d).

(** ZSCORE key member. *)
Definition zscore (key member : string) (d : db) : option Z :=
  zset_of key d !! member.

(** EXISTS key. *)
Definition exists_ (key : string) (d : db) : bool :=
  bool_decide (is_Some (d !! key)).

End Redis.
Import Redis.

(** ** The client of the store (@upstash/redis) *)

Module RedisClient.

(** [parseRecursive] on one member of a reply: the member is parsed as JSON
    text; a number whose decimal form is not the text it was read from
    stays that text; [parseResponse] leaves a member that does not parse
    as the string it is. *)
Definition parseRecursive (member : string) : Json.value :=
  match Json.parse member with
  | None => Json.VString (Json.units_of member)
  | Some (Json.VNumber x) =>
      if String.eqb (Double.toString x) member then Json.VNumber x
      else Json.VString (Json.units_of member)
  | Some v => v
  end.

(** [zrange(key, min, max, { byScore: true })]: the members that the
    command answers, each as the client hands it back. *)
Definition zrange (key : string) (min max : Z) (d : db) : list Json.value :=
  parseRecursive <$> zrange_byScore key min max d.

End RedisClient.

(** ** [MemoryManager] (memory.ts) *)

Record CompanionKey : Type := {
  companionName : string;
  modelName : string;
  (** [None] is a [userId] that is [undefined]. *)
  userId : option string;
}.

(** A template literal prints [undefined] by its name. *)
Definition template_arg (o : option string) : string :=
  default "undefined" o.

Definition generateRedisCompanionKey (companionKey : CompanionKey) : string :=
  companionName companionKey +:+ "-" +:+ modelName companionKey +:+ "-" +:+
  template_arg (userId companionKey).

(** [!companionKey || typeof companionKey.userId == "undefined"]; an absent
    argument ([null] or [undefined]) is [None]. *)
Definition key_set_incorrectly (companionKey : option CompanionKey) : bool :=
  match companionKey with
  | None => true
  | Some ck => bool_decide (userId ck = None)
  end.

Definition writeToHistory
    (text : string) (companionKey : option CompanionKey) (now : Z) (d : db)
    : jsval * db :=
  match companionKey with
  | Some ck =>
      if key_set_incorrectly companionKey then (JStr "", d)
      else
        let key := generateRedisCompanionKey ck in
        let '(result, d') := zadd key now text d in
        (JNum result, d')
  | None => (JStr "", d)
  end.

(** The members come back deserialized, and [join] prints them: the call
    throws when one of them cannot be printed. *)
Definition readLatestHistory
    (companionKey : option CompanionKey) (now : Z) (d : db)
    : completion string :=
  match companionKey with
  | Some ck =>
      if key_set_incorrectly companionKey then Normal ""
      else
        let key := generateRedisCompanionKey ck in
        let result := RedisClient.zrange key 0 now d in
        let result := reverse (slice_last 100 result) in
        recentChats ← Json.join nl (reverse result);
        Normal recentChats
  | None => Normal ""
  end.

(** The loop of [seedChatHistory]. *)
Fixpoint seed_lines (key : string) (content : list string) (counter : Z)
    (d : db) : db :=
  match content with
  | [] => d
  | line :: rest => seed_lines key rest (counter + 1) (zadd key counter line d).2
  end.

(** Reading a field of an absent [companionKey] throws. *)
Definition seedChatHistory
    (seedContent delimiter : string) (companionKey : option CompanionKey)
    (d : db) : completion (jsval * db) :=
  match companionKey with
  | None => Throw "TypeError"
  | Some ck =>
      let key := generateRedisCompanionKey ck in
      if exists_ key d then Normal (JUndefined, d)
      else
        let content := split delimiter seedContent in
        Normal (JUndefined, seed_lines key content 0 d)
  end.

(** *** [vectorSearch] *)

Record Document : Type := { pageContent : string }.

(** The vector store and the embedding service, as the calls of
    [vectorSearch] see them. [fromExistingIndex] answers a handle on the
    name space; [similaritySearch] embeds the query and asks the index for
    its nearest neighbours, and fails when either of the two fails. *)
Record VectorService : Type := {
  fromExistingIndex : string → completion string;
  similaritySearch : string → string → nat → Q → completion (list Document);
}.

(** The handle on the index ([this.vectorDBClient.Index]) goes into the
    handle on the store; neither call embeds or queries. *)
Definition vectorSearch (vs : VectorService)
    (recentChatHistory companionFileName : string)
    : completion (list Document) :=
  vectorStore ← fromExistingIndex vs companionFileName;
  let truncatedHistory := truncateText recentChatHistory in
  match similaritySearch vs vectorStore truncatedHistory 5 (7 # 10) with
  | Normal similarDocs => Normal similarDocs
  | Throw err => Normal []
  end.

(** ** The repetition check (route.ts, in [POST]) *)

(** A row of the relational message table. *)
Record Message : Type := {
  content : string;
  role : string;
  msg_userId : string;
  msg_companionId : string;
}.

(** [s.toLowerCase().split(" ").filter(word => word.length > 0)]. *)
Definition wordsOf (s : string) : list string :=
  filter (λ word, (0 < String.length word)%nat) (split " " (toLowerCase s)).

(** The loop [words.forEach(word => map.set(word, (map.get(word) || 0) + 1))]. *)
Definition wordMap (words : list string) : gmap string nat :=
  foldl (λ m word, <[word := (default 0 (m !! word) + 1)%nat]> m) ∅ words.

(** The loop over [msgWordMap] that adds up [Math.min(count, promptCount)].
    A [Map] is visited in the order of insertion and a [gmap] in the order
    of its keys; the sum is the same. *)
Definition commonWords (msgWordMap promptWordMap : gmap string nat) : nat :=
  map_fold
    (λ word count acc,
       match promptWordMap !! word with
       | Some promptCount => (acc + Nat.min count promptCount)%nat
       | None => acc
       end)
    0%nat msgWordMap.

(** [commonWords / Math.max(a, b) > 0.6]. The quotient of two integers
    below 2^50 is rounded to the double nearest to it, and so is 0.6: the
    doubles compare as the rationals do, but at equality, where both are
    the same double and [>] is false, as it is here. With an empty word list
    on both sides the quotient is NaN, and NaN > 0.6 is false. *)
Definition exceeds_threshold (common longest : nat) : bool :=
  match longest with
  | O => false
  | S _ =>
      negb (Qle_bool
              (inject_Z (Z.of_nat common) / inject_Z (Z.of_nat longest))%Q
              (6 # 10))
  end.

(** The predicate of [recentMessages.filter]. *)
Definition isSimilar (prompt : string) (msg : Message) : bool :=
  if bool_decide (content msg = "") then false
  else
    let msgWords := wordsOf (content msg) in
    let promptWords := wordsOf prompt in
    let msgWordMap := wordMap msgWords in
    let promptWordMap := wordMap promptWords in
    exceeds_threshold (commonWords msgWordMap promptWordMap)
      (Nat.max (length msgWords) (length promptWords)).

Definition similarMessages (prompt : string) (recentMessages : list Message)
    : list Message :=
  filter (λ msg, isSimilar prompt msg = true) recentMessages.

Definition isRepetitive (prompt : string) (recentMessages : list Message)
    : bool :=
  bool_decide (0 < length (similarMessages prompt recentMessages))%nat.

(** [similarMessages[0]?.content || ""]. *)
Definition lastResponse (prompt : string) (recentMessages : list Message)
    : string :=
  match similarMessages prompt recentMessages with
  | msg :: _ => content msg
  | [] => ""
  end.

(** ** The request handler [POST] (route.ts) *)

(** [CONFIG]. *)
Definition TIMEOUT_MS : Z := 30000.
Definition MAX_LENGTH : Z := 300.

(** A persona with the rows [findUnique] includes: the messages of the
    user, newest first, at most 50. *)
Record Companion : Type := {
  companion_id : string;
  companion_name : string;
  instructions : string;
  seed : string;
  messages : list Message;
}.

(** What the handler sees while it iterates the model's response: a part
    with its delta text (empty when the part carries none), or the moment
    at which the callback of [setTimeout], due [TIMEOUT_MS] after the
    handler started, runs between two parts. *)
Inductive StreamEvent : Type :=
| Part (text : string)
| TimerFires.

(** The events of a response, and the error that ends it when it fails. *)
Record ModelStream : Type := {
  events : list StreamEvent;
  failure : option string;
}.

Inductive StreamEnd : Type := Closed | Errored.

Inductive Response : Type :=
| NextResponse (body : string) (status : nat)
| StreamingTextResponse (chunks : list string) (ending : StreamEnd).

(** The services the handler awaits, each by the outcome of its call. *)
Record Services : Type := {
  (** [request.json()]: the [prompt] of the body. *)
  request_json : completion string;
  (** [currentUser()]: the [id] of the user, [None] without a user. *)
  currentUser : completion (option string);
  ratelimit : string → completion bool;
  companion_findUnique : string → string → completion (option Companion);
  message_create : Message → completion unit;
  companion_update : string → Message → completion unit;
  vector : VectorService;
  chat_completions_create : string → completion ModelStream;
  (** The successive readings of [Date.now()]. *)
  date_now : nat → Z;
}.

(** What the handler changes: the history store, the rows it has written to
    the message table, and its [AbortController] with the pending timer. *)
Record World : Type := {
  history : db;
  message_rows : list Message;
  aborted : bool;
  timer_pending : bool;
}.

Definition set_history (d : db) (w : World) : World :=
  {| history := d; message_rows := message_rows w;
     aborted := aborted w; timer_pending := timer_pending w |}.

Definition add_row (m : Message) (w : World) : World :=
  {| history := history w; message_rows := message_rows w ++ [m];
     aborted := aborted w; timer_pending := timer_pending w |}.

(** [new AbortController()] and [setTimeout(() => controller.abort(), ...)]. *)
Definition arm_timer (w : World) : World :=
  {| history := history w; message_rows := message_rows w;
     aborted := false; timer_pending := true |}.

(** [clearTimeout(timeoutId)]. *)
Definition clear_timer (w : World) : World :=
  {| history := history w; message_rows := message_rows w;
     aborted := aborted w; timer_pending := false |}.

(** The callback of the timer: [controller.abort()]. The signal of the
    controller is handed to no call, so the flag is all that changes. *)
Definition fire_timer (w : World) : World :=
  if timer_pending w
  then {| history := history w; message_rows := message_rows w;
          aborted := true; timer_pending := false |}
  else w.

(** *** The handler monad: state, early [return] and [throw] *)

Inductive step (A : Type) : Type :=
| Continue (a : A)
| Return (r : Response)
| Raise (e : string).
Arguments Continue {A} a.
Arguments Return {A} r.
Arguments Raise {A} e.

Definition handler (A : Type) : Type := World → step A * World.

#[global] Instance handler_ret : MRet handler := λ A a w, (Continue a, w).

#[global] Instance handler_bind : MBind handler := λ A B k m w,
  match m w with
  | (Continue a, w') => k a w'
  | (Return r, w') => (Return r, w')
  | (Raise e, w') => (Raise e, w')
  end.

(** [await] of a call that has settled. *)
Definition await {A} (c : completion A) : handler A := λ w,
  (match c with Normal a => Continue a | Throw e => Raise e end, w).

Definition respond {A} (r : Response) : handler A := λ w, (Return r, w).

(** Runs a call to its settlement and hands its completion on as a value. *)
Definition settle {A} (call : World → completion A * World)
    : handler (completion A) := λ w,
  let '(c, w') := call w in (Continue c, w').

(** [Promise.all] of three settled promises. *)
Definition promise_all3 {A B C}
    (a : completion A) (b : completion B) (c : completion C)
    : completion (A * B * C) :=
  x ← a; y ← b; z ← c; mret (x, y, z).

(** [prismadb.message.create]: the row is there once the call succeeds. *)
Definition message_create_call (sv : Services) (m : Message) (w : World)
    : completion unit * World :=
  match message_create sv m with
  | Normal u => (Normal u, add_row m w)
  | Throw e => (Throw e, w)
  end.

(** [prismadb.companion.update] with a nested [create] of a message. *)
Definition companion_update_call (sv : Services) (chatId : string)
    (m : Message) (w : World) : completion unit * World :=
  match companion_update sv chatId m with
  | Normal u => (Normal u, add_row m w)
  | Throw e => (Throw e, w)
  end.

Definition read_history (ck : option CompanionKey) (now : Z)
    : handler string := λ w,
  await (readLatestHistory ck now (history w)) w.

Definition write_history (text : string) (ck : option CompanionKey) (now : Z)
    : handler jsval := λ w,
  let '(r, d) := writeToHistory text ck now (history w) in
  (Continue r, set_history d w).

Definition seed_history (seedContent delimiter : string)
    (ck : option CompanionKey) : handler jsval := λ w,
  match seedChatHistory seedContent delimiter ck (history w) with
  | Normal (r, d) => (Continue r, set_history d w)
  | Throw e => (Raise e, w)
  end.

(** *** The stream of the response *)

(** [fullResponse] and the chunks handed to the caller so far. *)
Record StreamState : Type := {
  fullResponse : string;
  enqueued : list string;
}.

(** The loop [for await (const part of modelResponse)]. *)
Fixpoint stream_loop (evs : list StreamEvent) (st : StreamState) (w : World)
    : StreamState * World :=
  match evs with
  | [] => (st, w)
  | Part text :: rest =>
      if bool_decide (text = "") then stream_loop rest st w
      else
        stream_loop rest
          {| fullResponse := fullResponse st +:+ text;
             enqueued := enqueued st ++ [text] |} w
  | TimerFires :: rest => stream_loop rest st (fire_timer w)
  end.

(** [start(controller)] of the [ReadableStream]. *)
Definition stream_start (sv : Services) (chatId uid : string)
    (ck : option CompanionKey) (modelResponse : ModelStream) (w : World)
    : Response * World :=
  let '(st, w1) :=
    stream_loop (events modelResponse) {| fullResponse := ""; enqueued := [] |} w in
  match failure modelResponse with
  | Some e => (StreamingTextResponse (enqueued st) Errored, w1)
  | None =>
      if bool_decide (1 < String.length (fullResponse st))%nat then
        let '(r, d) :=
          writeToHistory (trim (fullResponse st)) ck (date_now sv 3) (history w1) in
        let w2 := set_history d w1 in
        let reply :=
          {| content := trim (fullResponse st); role := "system";
             msg_userId := uid; msg_companionId := chatId |} in
        match companion_update_call sv chatId reply w2 with
        | (Normal _, w3) => (StreamingTextResponse (enqueued st) Closed, w3)
        | (Throw e, w3) => (StreamingTextResponse (enqueued st) Errored, w3)
        end
      else (StreamingTextResponse (enqueued st) Closed, w1)
  end.

(** [return new StreamingTextResponse(new ReadableStream({ start }))]. *)
Definition stream_response (sv : Services) (chatId uid : string)
    (ck : option CompanionKey) (modelResponse : ModelStream)
    : handler Response := λ w,
  let '(r, w') := stream_start sv chatId uid ck modelResponse w in
  (Continue r, w').

(** [msg.role === 'user' ? 'User' : companion.name], then the content. *)
Definition format_message (companion : Companion) (msg : Message) : string :=
  (if bool_decide (role msg = "user") then "User" else companion_name companion)
  +:+ ": " +:+ content msg.

(** The handler once the guards are passed: context, prompt, generation
    and stream. ([relevantHistory], built from [similarDocs], is used
    nowhere.) A read of the history that throws rejects the
    [Promise.all], whichever of the two reads it is. *)
Definition POST_reply (sv : Services) (chatId uid prompt : string)
    (companion : Companion) : handler Response :=
  let recentMessages := messages companion in
  let isRepetitive := isRepetitive prompt recentMessages in
  let lastResponse := lastResponse prompt recentMessages in
  let companionKey :=
    Some {| companionName := companion_id companion;
            userId := Some uid; modelName := "gpt-4" |} in
  records ← read_history companionKey (date_now sv 0);
  latest ← read_history companionKey (date_now sv 1);
  similarDocs ← await (vectorSearch (vector sv) latest
                         (companion_id companion +:+ ".txt"));
  _ ← (if bool_decide (String.length records = 0%nat)
       then seed_history (seed companion) (nl +:+ nl) companionKey
       else mret JUndefined);
  _ ← write_history ("User: " +:+ prompt +:+ nl) companionKey (date_now sv 2);
  let messageHistory :=
    join nl (reverse (format_message companion <$> recentMessages)) in
  let promptContent :=
    createPromptTemplate (companion_name companion)
      (instructions companion) messageHistory
      isRepetitive lastResponse prompt in
  modelResponse ← await (chat_completions_create sv promptContent);
  stream_response sv chatId uid companionKey modelResponse.

(** The body of the [try] block. *)
Definition POST_try (sv : Services) (url chatId : string) : handler Response :=
  prompt ← await (request_json sv);
  user ← await (currentUser sv);
  match user with
  | None => respond (NextResponse "Unauthorized" 401)
  | Some uid =>
      if bool_decide (uid = "")
      then respond (NextResponse "Unauthorized" 401) else
      let identifier := url +:+ "-" +:+ uid in
      let limited := ratelimit sv identifier in
      let found := companion_findUnique sv chatId uid in
      created ← settle (message_create_call sv
        {| content := prompt; role := "user";
           msg_userId := uid; msg_companionId := chatId |});
      '(success, companion, userMessage) ← await (promise_all3 limited found created);
      if negb success then respond (NextResponse "Rate limit exceeded" 429)
      else
        match companion with
        | None => respond (NextResponse "Companion not found" 404)
        | Some companion => POST_reply sv chatId uid prompt companion
        end
  end.

(** [catch (error)]: the timer is cleared and the answer is 500. *)
Definition catch_all (tried : step Response * World) : Response * World :=
  match tried with
  | (Continue r, w') => (r, w')
  | (Return r, w') => (r, w')
  | (Raise e, w') => (NextResponse "Internal Error" 500, clear_timer w')
  end.

(** The handler: the timer is armed, then the [try] block runs. *)
Definition POST (sv : Services) (url chatId : string) (w : World)
    : Response * World :=
  catch_all (POST_try sv url chatId (arm_timer w)).

(** ** The home page [RootPage] (page.tsx) *)

(** [searchParams]: [None] is a parameter that is absent. *)
Record SearchParams : Type := {
  params_categoryId : option string;
  params_name : option string;
}.

(** The [where] clause handed to [prismadb.companion.findMany]; [None] is
    [undefined], a field that filters nothing. *)
Record CompanionWhere : Type := {
  where_categoryId : option string;
  where_name_contains : option string;
}.

(** [x || undefined] and [x ? { contains: x } : undefined]: an absent
    parameter and the empty string are both falsy. *)
Definition or_undefined (x : option string) : option string :=
  match x with
  | Some s => if bool_decide (s = "") then None else Some s
  | None => None
  end.

(** What the page renders: the categories and the companions found. *)
Record HomeView (Row Category : Type) : Type := {
  view_categories : list Category;
  view_data : list Row;
}.
Arguments view_categories {Row Category} _.
Arguments view_data {Row Category} _.

(** The two queries of the page, each by the outcome of its call. *)
Record HomeServices (Row Category : Type) : Type := {
  companion_findMany : CompanionWhere → completion (list Row);
  category_findMany : completion (list Category);
}.
Arguments companion_findMany {Row Category} _ _.
Arguments category_findMany {Row Category} _.

Definition RootPage {Row Category : Type} (sv : HomeServices Row Category)
    (searchParams : SearchParams) : completion (HomeView Row Category) :=
  let tried :=
    data ← companion_findMany sv
      {| where_categoryId := or_undefined (params_categoryId searchParams);
         where_name_contains := or_undefined (params_name searchParams) |};
    categories ← category_findMany sv;
    mret {| view_categories := categories; view_data := data |} in
  match tried with
  | Normal view => Normal view
  | Throw error => Throw "Failed to fetch companion data"
  end.

(** * Vocabulary of the properties *)

(** ** Strings and word lists *)

(** [s.includes(t)]. *)
Definition includes (s t : string) : Prop :=
  ∃ pre post, s = pre +:+ t +:+ post.

(** No character of the string is white space. *)
Fixpoint no_ws (s : string) : bool :=
  match s with
  | EmptyString => true
  | String c s' => negb (isWhiteSpace c) && no_ws s'
  end.

(** Every piece but the last is non-empty. *)
Fixpoint inner_nonempty (ps : list string) : Prop :=
  match ps with
  | [] => True
  | p :: rest =>
      match rest with
      | [] => True
      | _ :: _ => p ≠ "" ∧ inner_nonempty rest
      end
  end.

(** How often [w] stands in [ws]. *)
Definition count_of (w : string) (ws : list string) : nat :=
  length (filter (λ x, x = w) ws).

(** The overlap of two word lists as multisets: over the different words
    of [a], the smaller of the two counts. *)
Definition overlap (a b : list string) : nat :=
  sum_list_with (λ w, Nat.min (count_of w a) (count_of w b)) (remove_dups a).



(** ** The history store *)


(** The lines with the scores the loop gives them: [c], [c + 1], ... *)
Fixpoint numbered (c : Z) (lines : list string) : list (string * Z) :=
  match lines with
  | [] => []
  | line :: rest => (line, c) :: numbered (c + 1) rest
  end.

(** The member is JSON text: [JSON.parse] accepts it. A text of a
    conversation such as [User: hi] is none. *)
Definition is_json (member : string) : bool :=
  match Json.parse member with
  | Some _ => true
  | None => false
  end.

(** ** The handler *)

(** The parts of a stream, the firing of the timer left out. *)
Fixpoint without_timer (evs : list StreamEvent) : list StreamEvent :=
  match evs with
  | [] => []
  | Part text :: rest => Part text :: without_timer rest
  | TimerFires :: rest => without_timer rest
  end.

(** A step of the handler only adds rows to the message table. *)
Definition extends_rows {A} (m : handler A) : Prop :=
  ∀ w, ∃ more, message_rows (m w).2 = message_rows w ++ more.

(** ** Vocabulary of the further properties *)

(** The lines of the history that [createPromptTemplate] shows: its local
    [recentMessages]. *)
Definition recentMessages_of (messageHistory : string) : list string :=
  slice_last 6
    (filter (λ line, (0 < String.length (trim line))%nat)
       (slice_last 12 (split nl messageHistory))).

(** Some character of the string is not white space. *)
Fixpoint has_ink (s : string) : bool :=
  match s with
  | EmptyString => false
  | String c s' => negb (isWhiteSpace c) || has_ink s'
  end.

(** No character of the string is the newline. *)
Fixpoint no_newline (s : string) : bool :=
  match s with
  | EmptyString => true
  | String c s' => bool_decide (c ≠ ascii_of_nat 10) && no_newline s'
  end.

(** The part of the prompt before the history lines. *)
Definition prompt_head (name instructions : string) : string :=
  "<|system|>" +:+ nl +:+
  "You are " +:+ name +:+
    ". Stay focused on the current topic of discussion." +:+ nl +:+
  nl +:+
  "Core Identity:" +:+ nl +:+
  instructions +:+ nl +:+
  nl +:+
  "CONVERSATION HISTORY (Last 3 exchanges):" +:+ nl.

(** The part of the prompt after the history lines. *)
Definition prompt_tail (name prompt : string) : string :=
  nl +:+
  nl +:+
  "CURRENT TOPIC: " +:+ prompt +:+ nl +:+
  nl +:+
  "RULES:" +:+ nl +:+
  "1. STAY ON TOPIC: The user is asking about " +:+ prompt +:+
    ". Do NOT talk about yourself unless specifically asked" +:+ nl +:+
  no_repetition_rule +:+ nl +:+
  "3. MEMORY ACTIVE: Reference the conversation history to maintain context"
    +:+ nl +:+
  "4. FOCUSED RESPONSE: Address the current question directly" +:+ nl +:+
  nl +:+
  "Current question: " +:+ prompt +:+ nl +:+
  "Response as " +:+ name +:+ ", focusing ONLY on the asked topic:" +:+ nl +:+
  "<|assistant|>".

(** The delta texts of the parts of a stream, in order. *)
Fixpoint part_texts (evs : list StreamEvent) : list string :=
  match evs with
  | [] => []
  | Part text :: rest => text :: part_texts rest
  | TimerFires :: rest => part_texts rest
  end.

(** The row that [start] writes for a reply. *)
Definition reply_row (chatId uid fullResponse : string) : Message :=
  {| content := trim fullResponse; role := "system";
     msg_userId := uid; msg_companionId := chatId |}.

(** The services with another similarity search. *)
Definition with_similaritySearch (sv : Services)
    (search : string → string → nat → Q → completion (list Document))
    : Services :=
  {| request_json := request_json sv;
     currentUser := currentUser sv;
     ratelimit := ratelimit sv;
     companion_findUnique := companion_findUnique sv;
     message_create := message_create sv;
     companion_update := companion_update sv;
     vector := {| fromExistingIndex := fromExistingIndex (vector sv);
                  similaritySearch := search |};
     chat_completions_create := chat_completions_create sv;
     date_now := date_now sv |}.

(** ** Inputs of the examples *)

(** The quotation mark. *)
Definition quote : string := String (ascii_of_nat 34) EmptyString.

(** A text of 6154 words. *)
Definition long_text : string := join " " (replicate (Z.to_nat 6154) "w").

(** A well-formed key. *)
Definition example_key : CompanionKey :=
  {| companionName := "c1"; modelName := "gpt-4"; userId := Some "u1" |}.

(** A vector store whose every search fails. *)
Definition failing_vector_service : VectorService :=
  {| fromExistingIndex := λ namespace, Normal namespace;
     similaritySearch := λ _ _ _ _, Throw "embedding request failed" |}.

(** A persona with a seed of two lines and no earlier messages. *)
Definition example_companion : Companion :=
  {| companion_id := "c1"; companion_name := "Ada";
     instructions := "You are Ada.";
     seed := "Human: Hi" +:+ nl +:+ nl +:+ "Ada: Hello!";
     messages := [] |}.

(** Services that all answer; [allow] is the verdict of the rate limit and
    [stream] what the model sends. *)
Definition example_services (allow : bool) (stream : ModelStream) : Services :=
  {| request_json := Normal "tell me a story";
     currentUser := Normal (Some "u1");
     ratelimit := λ _, Normal allow;
     companion_findUnique := λ _ _, Normal (Some example_companion);
     message_create := λ _, Normal ();
     companion_update := λ _ _, Normal ();
     vector := failing_vector_service;
     chat_completions_create := λ _, Normal stream;
     date_now := λ n, 1000 + Z.of_nat n |}.

(** Empty stores, no timer. *)
Definition empty_world : World :=
  {| history := ∅; message_rows := []; aborted := false; timer_pending := false |}.

(** * Properties *)

(** ** Strings *)

Lemma append_cons (c : ascii) (a b : string) :
  String c a +:+ b = String c (a +:+ b).
Proof. reflexivity. Qed.

Lemma append_assoc (a b c : string) : (a +:+ b) +:+ c = a +:+ b +:+ c.
Proof.
  induction a as [|x a IH]; [done|].
  by rewrite !append_cons, IH.
Qed.

Lemma includes_here (t post : string) : includes (t +:+ post) t.
Proof. by exists "", post. Qed.

Lemma includes_line (a b c post : string) :
  includes (a +:+ b +:+ c +:+ post) (a +:+ b +:+ c).
Proof. exists "", post. by rewrite !append_assoc. Qed.

Lemma includes_app_r (a s t : string) : includes s t → includes (a +:+ s) t.
Proof.
  intros (pre & post & ->). exists (a +:+ pre), post.
  by rewrite append_assoc.
Qed.

Lemma concat_cons_char (sep : string) c q (l : list string) :
  String.concat sep (String c q :: l) = String c (String.concat sep (q :: l)).
Proof. by destruct l. Qed.

Lemma split_ws_go_no_ws (p : string) :
  no_ws p = true → split_ws_go false p = [p].
Proof.
  induction p as [|c p IH]; simpl; [done|].
  intros [Hc Hp]%andb_true_iff. apply negb_true_iff in Hc.
  by rewrite Hc, (IH Hp).
Qed.

Lemma split_ws_go_app_space (p r : string) :
  no_ws p = true →
  split_ws_go false (p +:+ String " " r) = p :: split_ws_go true r.
Proof.
  induction p as [|c p IH]; [done|].
  rewrite append_cons. simpl.
  intros [Hc Hp]%andb_true_iff. apply negb_true_iff in Hc.
  by rewrite Hc, (IH Hp).
Qed.

(** Splitting undoes joining with single spaces, when no piece holds white
    space and only the first may be empty. *)
Lemma split_ws_join (ps : list string) (p : string) :
  no_ws p = true →
  Forall (λ q, no_ws q = true ∧ q ≠ "") ps →
  split_ws (join " " (p :: ps)) = p :: ps.
Proof.
  unfold split_ws, join. revert p.
  induction ps as [|q qs IH]; intros p Hp Hall.
  - by apply split_ws_go_no_ws.
  - apply Forall_cons in Hall as [[Hq Hne] Hall].
    change (String.concat " " (p :: q :: qs))
      with (p +:+ String " " (String.concat " " (q :: qs))).
    rewrite split_ws_go_app_space by done.
    destruct q as [|c q]; [done|].
    simpl in Hq. apply andb_true_iff in Hq as [Hc Hq].
    apply negb_true_iff in Hc.
    rewrite concat_cons_char.
    change (split_ws_go true (String c ?s))
      with (if isWhiteSpace c then split_ws_go true s
            else cons_piece c (split_ws_go false s)).
    by rewrite Hc, (IH q Hq Hall).
Qed.

Lemma inner_nonempty_take (ps : list string) (k : nat) :
  inner_nonempty ps → (k < length ps)%nat →
  Forall (λ q, q ≠ "") (take k ps).
Proof.
  revert k. induction ps as [|p rest IH]; intros k Hin Hk; [by destruct k|].
  destruct k as [|k]; [constructor|].
  destruct rest as [|q rest]; [simpl in Hk; lia|].
  destruct Hin as [Hp Hrest]. simpl in Hk.
  rewrite firstn_cons. constructor; [done|]. apply IH; [done|simpl; lia].
Qed.

(** The pieces of [split(/\s+/)]: none holds white space, and only the
    first and the last can be empty. *)
Lemma split_ws_go_shape (s : string) :
  (∃ p rest, split_ws_go false s = p :: rest ∧
     Forall (λ q, no_ws q = true) (p :: rest) ∧ inner_nonempty rest) ∧
  (∃ p rest, split_ws_go true s = p :: rest ∧
     Forall (λ q, no_ws q = true) (p :: rest) ∧ inner_nonempty (p :: rest)).
Proof.
  induction s as [|c s [(p & rest & Ef & Hf & If) (p' & rest' & Et & Ht & It)]].
  - split; exists "", []; repeat split; by repeat constructor.
  - simpl. destruct (isWhiteSpace c) eqn:Hc.
    + rewrite Et. split.
      * exists "", (p' :: rest'). repeat split; [|done]. by constructor.
      * by exists p', rest'.
    + rewrite Ef. simpl.
      apply Forall_cons in Hf as [Hp Hrest].
      assert (no_ws (String c p) = true) as Hcp by (simpl; by rewrite Hc, Hp).
      split; exists (String c p), rest; repeat split;
        try (by constructor); try done.
      by destruct rest.
Qed.

Lemma targetWords_default : targetWords 8000 = Z.to_nat 6153.
Proof. reflexivity. Qed.

Lemma over_budget_length (words : list string) :
  Qle_bool (estimatedTokens words) (inject_Z 8000) = false →
  (targetWords 8000 < length words)%nat.
Proof.
  intros Hb. rewrite targetWords_default.
  destruct (Z_lt_le_dec 6153 (Z.of_nat (length words))) as [?|Hle]; [lia|].
  assert (Qle_bool (estimatedTokens words) (inject_Z 8000) = true) as Ht;
    [|congruence].
  apply Qle_bool_iff. unfold Qle, estimatedTokens, token_factor. simpl. lia.
Qed.

(** ** The prompt template *)

(** C9: two calls of [createPromptTemplate] that differ only in the
    repetition flag and the exemplar text build the same prompt, and
    whatever the arguments the prompt holds the second rule, the directive
    not to repeat, as a line of its own. *)
Theorem createPromptTemplate_ignores_repetition
    (name instructions messageHistory prompt : string)
    (isRepetitive1 isRepetitive2 : bool) (lastResponse1 lastResponse2 : string) :
  createPromptTemplate name instructions messageHistory
    isRepetitive1 lastResponse1 prompt =
  createPromptTemplate name instructions messageHistory
    isRepetitive2 lastResponse2 prompt ∧
  includes
    (createPromptTemplate name instructions messageHistory
       isRepetitive1 lastResponse1 prompt)
    (nl +:+
     "2. NO REPETITION: Don't repeat phrases from your recent messages shown above"
     +:+ nl).
Proof.
  split; [reflexivity|].
  unfold createPromptTemplate, no_repetition_rule.
  repeat first [apply includes_line | apply includes_app_r].
Qed.

(** ** Truncation before embedding *)

(** C8: [truncateText] gives the text back unchanged when its word count
    times 1.3 is at most 8000; otherwise it gives the first
    floor(8000/1.3) = 6153 words joined by single spaces, a text that
    splits into exactly these 6153 words again and so is not the text that
    came in. *)
Theorem truncateText_budget (text : string) :
  let words := split_ws text in
  let count := inject_Z (Z.of_nat (length words)) in
  Qfloor ((8000 # 1) / (13 # 10)) = 6153 ∧
  ((count * (13 # 10) <= 8000 # 1)%Q → truncateText text = text) ∧
  (¬ (count * (13 # 10) <= 8000 # 1)%Q →
   truncateText text = join " " (take (Z.to_nat 6153) words) ∧
   split_ws (truncateText text) = take (Z.to_nat 6153) words ∧
   length (split_ws (truncateText text)) = Z.to_nat 6153 ∧
   truncateText text ≠ text).
Proof.
  intros words count. split; [reflexivity|].
  unfold truncateText, truncateText_max. fold words.
  change (estimatedTokens words) with (count * (13 # 10))%Q.
  change (inject_Z 8000) with (8000 # 1).
  change (targetWords 8000) with (Z.to_nat 6153).
  split.
  - intros Hle. apply Qle_bool_iff in Hle. by rewrite Hle.
  - intros Hgt.
    destruct (Qle_bool (count * (13 # 10)) (8000 # 1)) eqn:Hb;
      [by apply Qle_bool_iff in Hb|].
    pose proof (over_budget_length words Hb) as Hlen.
    rewrite targetWords_default in Hlen.
    assert (split_ws (join " " (slice_first (Z.to_nat 6153) words))
            = take (Z.to_nat 6153) words) as Hsplit.
    { unfold slice_first.
      destruct (split_ws_go_shape text) as [(p & rest & E & Hall & Hin) _].
      fold (split_ws text) in E. fold words in E. rewrite E in Hlen |- *.
      assert (∃ k, Z.to_nat 6153 = S k) as [k Hk].
      { exists (Z.to_nat 6152). lia. }
      rewrite Hk in Hlen |- *. rewrite firstn_cons. simpl in Hlen.
      apply Forall_cons in Hall as [Hp Hall].
      apply split_ws_join; [done|].
      apply Forall_and. split.
      - by apply Forall_take.
      - apply inner_nonempty_take; [done|lia]. }
    assert (length (split_ws (join " " (slice_first (Z.to_nat 6153) words)))
            = Z.to_nat 6153) as Hcount.
    { rewrite Hsplit, length_take. lia. }
    split; [done|]. split; [done|]. split; [done|].
    intros E. rewrite E in Hcount. fold words in Hcount. lia.
Qed.

(** A text of 6154 words is over the budget (6154 * 1.3 = 8000.2) and
    comes back with 6153 words; one of three words comes back as it is. *)
Lemma truncateText_budget_witness :
  (length (split_ws (truncateText long_text)) = Z.to_nat 6153 ∧
   truncateText long_text ≠ long_text) ∧
  truncateText "one two three" = "one two three".
Proof.
  split.
  - refine (let H := proj2 (proj2 (truncateText_budget long_text)) _ in
            conj (proj1 (proj2 (proj2 H))) (proj2 (proj2 (proj2 H)))).
    vm_compute. intros H. apply H. reflexivity.
  - refine (proj1 (proj2 (truncateText_budget "one two three")) _).
    vm_compute. discriminate.
Defined.

Example truncateText_long_text :
  length (split_ws long_text) = Z.to_nat 6154 ∧
  truncateText long_text = join " " (replicate (Z.to_nat 6153) "w").
Proof. by vm_compute. Qed.

(** ** The sorted sets of the history store *)

#[global] Instance entry_le_total : Total entry_le.
Proof.
  intros [m1 s1] [m2 s2]. unfold entry_le. simpl.
  destruct (Z.lt_trichotomy s1 s2) as [?|[->|?]]; [by left; left| |by right; left].
  destruct (total String.le m1 m2); [left|right]; by right.
Qed.

#[global] Instance entry_le_trans : Transitive entry_le.
Proof.
  intros [m1 s1] [m2 s2] [m3 s3]. unfold entry_le. simpl.
  intros [?|[-> L1]] [?|[-> L2]]; [left; lia|by left|by left|].
  right. split; [done|]. by etrans.
Qed.

#[global] Instance entry_le_antisymm : AntiSymm (=) entry_le.
Proof.
  intros [m1 s1] [m2 s2]. unfold entry_le. simpl.
  intros [?|[-> L1]] [?|[E L2]]; try lia.
  f_equal. by apply (anti_symm String.le).
Qed.



Lemma StronglySorted_sublist {A} (R : relation A) (l k : list A) :
  l `sublist_of` k → StronglySorted R k → StronglySorted R l.
Proof.
  induction 1 as [|x l k Hsub IH|x l k Hsub IH]; intros Hk.
  - constructor.
  - apply StronglySorted_inv in Hk as [Hk Hx]. constructor; [by apply IH|].
    rewrite Forall_forall in Hx |- *. intros y Hy. apply Hx.
    eapply elem_of_submseteq; [exact Hy|by apply sublist_submseteq].
  - apply StronglySorted_inv in Hk as [Hk Hx]. by apply IH.
Qed.

Lemma entries_Permutation (key : string) (d : db) :
  entries key d ≡ₚ map_to_list (zset_of key d).
Proof. apply merge_sort_Permutation. Qed.

Lemma elem_of_entries (key : string) (d : db) (m : string) (s : Z) :
  (m, s) ∈ entries key d ↔ zscore key m d = Some s.
Proof.
  unfold zscore. rewrite entries_Permutation. apply elem_of_map_to_list.
Qed.

Lemma NoDup_entries (key : string) (d : db) : NoDup (entries key d).
Proof. rewrite entries_Permutation. apply NoDup_map_to_list. Qed.

Lemma length_entries (key : string) (d : db) :
  length (entries key d) = zcard key d.
Proof.
  unfold zcard. rewrite entries_Permutation. apply length_map_to_list.
Qed.

Lemma entries_sorted (key : string) (d : db) :
  StronglySorted entry_le (entries key d).
Proof. apply StronglySorted_merge_sort; apply _. Qed.

(** Two lists with the same entries, both in the order of a sorted set, are
    one list. *)
Lemma sorted_entries_unique (l k : list (string * Z)) :
  NoDup l → NoDup k → (∀ e, e ∈ l ↔ e ∈ k) →
  StronglySorted entry_le l → StronglySorted entry_le k → l = k.
Proof.
  intros Hl Hk Hlk Sl Sk.
  apply (StronglySorted_unique entry_le); [done..|].
  by apply NoDup_Permutation.
Qed.

Lemma zset_of_zadd (key : string) (score : Z) (member : string) (d : db) :
  zset_of key (zadd key score member d).2 = <[member := score]> (zset_of key d).
Proof. unfold zadd, zset_of. simpl. by rewrite lookup_insert_eq. Qed.

Lemma zadd_other_key (key k : string) (score : Z) (member : string) (d : db) :
  k ≠ key → (zadd key score member d).2 !! k = d !! k.
Proof. intros Hk. unfold zadd. simpl. by rewrite lookup_insert_ne. Qed.

Lemma exists_zadd (key : string) (score : Z) (member : string) (d : db) :
  exists_ key (zadd key score member d).2 = true.
Proof.
  unfold exists_, zadd. simpl. rewrite lookup_insert_eq.
  by apply bool_decide_eq_true_2.
Qed.

(** ** Appending to the history *)

(** C1, as the code has it: [writeToHistory] under a well-formed key sets
    the score of [text] to the current time and leaves every entry with
    another text, and every other key, as it was, equal scores included. A
    text that is new adds one entry; a text that is there already keeps its
    single entry, whose score moves to the current time. *)
Theorem writeToHistory_entries
    (cn mn u text : string) (now : Z) (d : db) :
  let ck := {| companionName := cn; modelName := mn; userId := Some u |} in
  let key := generateRedisCompanionKey ck in
  let result := (writeToHistory text (Some ck) now d).1 in
  let d' := (writeToHistory text (Some ck) now d).2 in
  zscore key text d' = Some now ∧
  (∀ m, m ≠ text → zscore key m d' = zscore key m d) ∧
  (∀ k, k ≠ key → d' !! k = d !! k) ∧
  (zscore key text d = None →
     result = JNum 1 ∧ zcard key d' = S (zcard key d)) ∧
  (is_Some (zscore key text d) →
     result = JNum 0 ∧ zcard key d' = zcard key d).
Proof.
  intros ck key result d'.
  assert (writeToHistory text (Some ck) now d =
          (JNum (zadd key now text d).1, (zadd key now text d).2)) as E.
  { unfold writeToHistory. simpl. fold key. by destruct (zadd key now text d). }
  subst result d'. rewrite E. cbn [fst snd]. unfold zscore, zcard.
  rewrite (zset_of_zadd key now text d).
  split; [by rewrite lookup_insert_eq|].
  split; [by intros m Hm; rewrite lookup_insert_ne|].
  split; [by intros k Hk; apply zadd_other_key|].
  unfold zadd. cbn [fst]. split.
  - intros Hnone. rewrite Hnone. split; [done|].
    by apply map_size_insert_None.
  - intros [s Hs]. rewrite Hs. split; [done|].
    apply map_size_insert_Some. by eexists.
Qed.

(** C1, as stated, fails: the user says the same thing twice. After the
    second append the key holds one entry, not two, and the score of the
    entry that was there has moved from 1000 to 2000. *)
Lemma writeToHistory_same_text_overwrites :
  let key := generateRedisCompanionKey example_key in
  let d0 := (writeToHistory "User: hi" (Some example_key) 1000 ∅).2 in
  let d1 := (writeToHistory "User: hi" (Some example_key) 2000 d0).2 in
  entries key d0 = [("User: hi", 1000)] ∧
  entries key d1 = [("User: hi", 2000)] ∧
  zcard key d1 ≠ 2%nat ∧
  zscore key "User: hi" d1 ≠ zscore key "User: hi" d0.
Proof. vm_compute. repeat split; congruence. Qed.

(** Two appends in the same millisecond with different texts are both
    kept. *)
Example writeToHistory_same_score :
  let key := generateRedisCompanionKey example_key in
  let d0 := (writeToHistory "User: hi" (Some example_key) 1000 ∅).2 in
  let d1 := (writeToHistory "Hello!" (Some example_key) 1000 d0).2 in
  entries key d1 = [("Hello!", 1000); ("User: hi", 1000)].
Proof. vm_compute. reflexivity. Qed.

(** ** Reading the recent history *)


Lemma length_slice_last {A} (n : nat) (l : list A) :
  length (slice_last n l) = Nat.min n (length l).
Proof. unfold slice_last. rewrite length_drop. lia. Qed.

(** *** What the client hands back *)

Lemma string_of_units_of (s : string) : Json.string_of (Json.units_of s) = s.
Proof.
  unfold Json.string_of, Json.units_of.
  induction s as [|c s IH]; [done|].
  cbn [String.list_ascii_of_string]. csimpl.
  by rewrite ascii_N_embedding, IH.
Qed.

Lemma units_of_app (a b : string) :
  Json.units_of (a +:+ b) = Json.units_of a ++ Json.units_of b.
Proof.
  unfold Json.units_of. induction a as [|c a IH]; [done|].
  rewrite append_cons. cbn [String.list_ascii_of_string]. csimpl. by rewrite IH.
Qed.

Lemma intercalate_units_of (sep : string) (texts : list string) :
  Json.intercalate (Json.units_of sep) (Json.units_of <$> texts)
  = Json.units_of (join sep texts).
Proof.
  induction texts as [|t rest IH]; [done|].
  destruct rest as [|t' rest]; [done|].
  change (join sep (t :: t' :: rest)) with (t +:+ sep +:+ join sep (t' :: rest)).
  rewrite !units_of_app, <- IH. done.
Qed.

(** A member that is not JSON text comes back as the string it is. *)
Lemma parseRecursive_plain (member : string) :
  is_json member = false →
  RedisClient.parseRecursive member = Json.VString (Json.units_of member).
Proof.
  unfold is_json, RedisClient.parseRecursive.
  by destruct (Json.parse member).
Qed.

(** Members that are not JSON text are joined as they are. *)
Lemma join_plain (sep : string) (members : list string) :
  Forall (λ m, is_json m = false) members →
  Json.join sep (RedisClient.parseRecursive <$> members)
  = Normal (join sep members).
Proof.
  intros Hplain. unfold Json.join, Json.join_units.
  assert (Json.mapM (λ x, match x with
                          | Json.VNull => Normal []
                          | _ => Json.toString x
                          end) (RedisClient.parseRecursive <$> members)
          = Normal (Json.units_of <$> members)) as ->.
  { induction Hplain as [|m rest Hm Hrest IH]; [done|].
    csimpl. rewrite (parseRecursive_plain m Hm). cbn [Json.toString].
    change (Normal ?a ≫= ?k) with (k a). cbv beta. by rewrite IH. }
  unfold mbind, completion_bind.
  by rewrite intercalate_units_of, string_of_units_of.
Qed.

(** What [readLatestHistory] does under a well-formed key: the two
    reversals cancel. *)
Lemma readLatestHistory_read (cn mn u : string) (now : Z) (d : db) :
  let ck := {| companionName := cn; modelName := mn; userId := Some u |} in
  readLatestHistory (Some ck) now d
  = Json.join nl
      (RedisClient.parseRecursive
         <$> slice_last 100 (zrange_byScore (generateRedisCompanionKey ck) 0 now d)).
Proof.
  intros ck. unfold readLatestHistory. cbn [key_set_incorrectly userId ck].
  rewrite bool_decide_eq_false_2 by done.
  rewrite reverse_involutive. unfold RedisClient.zrange, slice_last.
  rewrite fmap_drop, length_fmap.
  by destruct (Json.join nl _).
Qed.

Lemma readLatestHistory_plain (cn mn u : string) (now : Z) (d : db) :
  let ck := {| companionName := cn; modelName := mn; userId := Some u |} in
  let recent :=
    slice_last 100 (zrange_byScore (generateRedisCompanionKey ck) 0 now d) in
  Forall (λ m, is_json m = false) recent →
  readLatestHistory (Some ck) now d = Normal (join nl recent).
Proof.
  intros ck recent Hplain. subst recent ck. rewrite readLatestHistory_read.
  by apply join_plain.
Qed.

(** A text that starts with a letter of [User] is not JSON text. *)
Lemma is_json_user_text (rest : string) : is_json ("User: " +:+ rest) = false.
Proof. reflexivity. Qed.



(** A history of three turns read back in the order of their scores. *)
Example readLatestHistory_example :
  let d0 := (writeToHistory "User: hi" (Some example_key) 1000 ∅).2 in
  let d1 := (writeToHistory "Hello!" (Some example_key) 1500 d0).2 in
  let d2 := (writeToHistory "User: bye" (Some example_key) 2000 d1).2 in
  readLatestHistory (Some example_key) 3000 d2 =
    Normal ("User: hi" +:+ nl +:+ "Hello!" +:+ nl +:+ "User: bye") ∧
  readLatestHistory (Some example_key) 1700 d2 =
    Normal ("User: hi" +:+ nl +:+ "Hello!").
Proof. vm_compute. done. Qed.

(** How the client hands members back, and how [join] prints them: numbers
    inside an array are printed as doubles, a number that is a member
    itself stays as it was written, and an escape in a quoted member is
    resolved. *)
Example parseRecursive_printed :
  let printed m := Json.join nl [RedisClient.parseRecursive m] in
  printed "[1.10, 1e21, 9007199254740993, null, [true, {}]]"
    = Normal "1.1,1e+21,9007199254740992,,true,[object Object]" ∧
  printed "1.10" = Normal "1.10" ∧
  printed "9007199254740993" = Normal "9007199254740993" ∧
  printed (quote +:+ "a\nb\u0021" +:+ quote) = Normal ("a" +:+ nl +:+ "b!") ∧
  printed "nul" = Normal "nul" ∧
  printed "" = Normal "".
Proof. vm_compute. done. Qed.

(** ** Seeding *)

(** The loop of [seedChatHistory] is one ZADD per line, in order. *)
Lemma seed_lines_zadds (key : string) (lines : list string) (c : Z) (d : db) :
  seed_lines key lines c d =
  foldl (λ d e, (zadd key e.2 e.1 d).2) d (numbered c lines).
Proof.
  revert c d. induction lines as [|l r IH]; intros c d; cbn [seed_lines numbered foldl]; [done|].
  apply IH.
Qed.

Lemma seed_lines_other_key (key k : string) (lines : list string) (c : Z) (d : db) :
  k ≠ key → seed_lines key lines c d !! k = d !! k.
Proof.
  intros Hk. revert c d. induction lines as [|l r IH]; intros c d; cbn [seed_lines numbered foldl]; [done|].
  by rewrite IH, zadd_other_key.
Qed.

Lemma exists_seed_lines (key : string) (lines : list string) (c : Z) (d : db) :
  exists_ key d = true ∨ lines ≠ [] → exists_ key (seed_lines key lines c d) = true.
Proof.
  revert c d. induction lines as [|l r IH]; intros c d; cbn [seed_lines numbered].
  - by intros [?|?].
  - intros _. apply IH. left. apply exists_zadd.
Qed.

Lemma elem_of_numbered_inv (lines : list string) (c : Z) (m : string) (s : Z) :
  (m, s) ∈ numbered c lines → m ∈ lines ∧ c ≤ s.
Proof.
  revert c. induction lines as [|l r IH]; intros c; simpl.
  - by intros ?%elem_of_nil.
  - intros [E|Hin]%elem_of_cons.
    + inversion E; subst. split; [left|lia].
    + destruct (IH _ Hin). split; [by right|lia].
Qed.

(** The scores that the loop leaves, for lines that are all different. *)
Lemma seed_lines_zscore (key : string) (lines : list string) (c : Z) (d : db)
    (m : string) (s : Z) :
  NoDup lines →
  zscore key m (seed_lines key lines c d) = Some s ↔
  (m, s) ∈ numbered c lines ∨ ((m ∉ lines) ∧ zscore key m d = Some s).
Proof.
  intros Hnd. revert c d.
  induction Hnd as [|l r Hl Hnd IH]; intros c d; cbn [seed_lines numbered].
  - rewrite elem_of_nil. split; [intros ?; right; split; [apply not_elem_of_nil|done]|].
    by intros [[]|[_ ?]].
  - rewrite IH. unfold zscore at 1. rewrite zset_of_zadd.
    rewrite elem_of_cons, not_elem_of_cons.
    destruct (decide (m = l)) as [->|Hne].
    + rewrite lookup_insert_eq. split.
      * intros [Hin|[_ E]]; [by apply elem_of_numbered_inv in Hin as [? _]|].
        left. left. congruence.
      * intros [[E|Hin]|[[? _] _]]; [|by apply elem_of_numbered_inv in Hin as [? _]|done].
        right. split; [done|]. congruence.
    + rewrite lookup_insert_ne by done. unfold zscore. split.
      * intros [Hin|[Hr E]]; [by left; right|]. by right.
      * intros [[E|Hin]|[[_ Hr] E]]; [congruence|by left|by right].
Qed.

Lemma seed_lines_member (key : string) (lines : list string) (c : Z) (d : db)
    (m : string) :
  m ∈ lines → is_Some (zscore key m (seed_lines key lines c d)).
Proof.
  revert c d. induction lines as [|l r IH]; intros c d; cbn [seed_lines numbered].
  - by intros ?%elem_of_nil.
  - destruct (decide (m ∈ r)) as [Hr|Hr]; [intros _; by apply IH|].
    intros [->|?]%elem_of_cons; [|done].
    clear IH. revert c d. induction r as [|x r IHr]; intros c d; cbn [seed_lines numbered].
    + unfold zscore. rewrite zset_of_zadd, lookup_insert_eq. by eexists.
    + apply not_elem_of_cons in Hr as [Hx Hr].
      specialize (IHr Hr).
      assert (∀ c' d', is_Some (zscore key l d') →
                is_Some (zscore key l (seed_lines key r c' d'))) as Hkeep.
      { clear -Hr. revert Hr. induction r as [|y r IH]; intros Hr c' d' Hs; cbn [seed_lines]; [done|].
        apply not_elem_of_cons in Hr as [Hy Hr]. apply IH; [done|].
        unfold zscore in *. by rewrite zset_of_zadd, lookup_insert_ne. }
      apply Hkeep. unfold zscore.
      rewrite !zset_of_zadd, lookup_insert_ne, lookup_insert_eq by done.
      by eexists.
Qed.

Lemma numbered_sorted (c : Z) (lines : list string) :
  StronglySorted entry_le (numbered c lines).
Proof.
  revert c. induction lines as [|l r IH]; intros c; simpl; constructor; [apply IH|].
  apply Forall_forall. intros [m s] Hin.
  apply elem_of_numbered_inv in Hin as [_ ?]. left. simpl. lia.
Qed.

Lemma numbered_fst (c : Z) (lines : list string) : (numbered c lines).*1 = lines.
Proof. revert c. induction lines as [|l r IH]; intros c; simpl; [done|]. by rewrite IH. Qed.

Lemma numbered_NoDup (c : Z) (lines : list string) :
  NoDup lines → NoDup (numbered c lines).
Proof.
  intros Hnd. apply (NoDup_fmap_1 fst). by rewrite numbered_fst.
Qed.

Lemma numbered_scores (c : Z) (lines : list string) (e : string * Z) :
  e ∈ numbered c lines → c ≤ e.2 < c + Z.of_nat (length lines).
Proof.
  revert c. induction lines as [|l r IH]; intros c; simpl.
  - by intros ?%elem_of_nil.
  - intros [->|Hin]%elem_of_cons; [simpl; lia|].
    apply IH in Hin. lia.
Qed.

Lemma filter_all {A} (P : A → Prop) `{∀ x, Decision (P x)} (l : list A) :
  Forall P l → filter P l = l.
Proof.
  induction 1 as [|x l Hx Hl IH]; [done|].
  by rewrite filter_cons_True, IH.
Qed.

Lemma exists_false_zscore (key m : string) (d : db) :
  exists_ key d = false → zscore key m d = None.
Proof.
  unfold exists_, zscore, zset_of. intros Hex%bool_decide_eq_false.
  destruct (d !! key) as [zs|] eqn:E; [by destruct Hex|done].
Qed.

(** What seeding leaves under a key that did not exist, for lines that are
    all different: the lines, numbered from [0], in their order. *)
Lemma seed_lines_entries (key : string) (lines : list string) (d : db) :
  exists_ key d = false → NoDup lines →
  entries key (seed_lines key lines 0 d) = numbered 0 lines.
Proof.
  intros Hex Hnd. apply sorted_entries_unique.
  - apply NoDup_entries.
  - by apply numbered_NoDup.
  - intros [m s]. rewrite elem_of_entries, seed_lines_zscore by done.
    rewrite (exists_false_zscore key m d Hex).
    split; [by intros [?|[_ ?]]|by left].
  - apply entries_sorted.
  - apply numbered_sorted.
Qed.

(** C3, as the code has it: [seedChatHistory] leaves a key that exists as
    it is; under a key that does not exist it issues one ZADD per line of
    the split content, in order, with the scores 0, 1, 2, ..., so that
    every line is an entry afterwards and, when the lines are all
    different, the entries are the lines in their order with these scores.
    It returns [undefined] in both cases. A second call with the same
    arguments changes nothing. *)
Theorem seedChatHistory_seeds
    (seedContent delimiter : string) (ck : CompanionKey) (d : db) :
  let key := generateRedisCompanionKey ck in
  let lines := split delimiter seedContent in
  let seeded := seed_lines key lines 0 d in
  (exists_ key d = true →
     seedChatHistory seedContent delimiter (Some ck) d = Normal (JUndefined, d)) ∧
  (exists_ key d = false →
     seedChatHistory seedContent delimiter (Some ck) d
       = Normal (JUndefined, seeded) ∧
     seeded = foldl (λ d e, (zadd key e.2 e.1 d).2) d (numbered 0 lines) ∧
     (∀ line, line ∈ lines → is_Some (zscore key line seeded)) ∧
     (∀ k, k ≠ key → seeded !! k = d !! k) ∧
     (NoDup lines →
        entries key seeded = numbered 0 lines ∧
        zrange_byScore key 0 (Z.of_nat (length lines)) seeded = lines)) ∧
  (∀ r1 d1,
     seedChatHistory seedContent delimiter (Some ck) d = Normal (r1, d1) →
     seedChatHistory seedContent delimiter (Some ck) d1
       = Normal (JUndefined, d1)).
Proof.
  intros key lines seeded. unfold seedChatHistory. fold key lines.
  split; [by intros ->|]. split.
  - intros Hex. rewrite Hex. split; [done|].
    split; [apply seed_lines_zadds|].
    split; [intros line; apply seed_lines_member|].
    split; [intros k; apply seed_lines_other_key|].
    intros Hnd. pose proof (seed_lines_entries key lines d Hex Hnd) as He.
    split; [done|]. unfold zrange_byScore. fold seeded in He. rewrite He.
    rewrite filter_all; [apply numbered_fst|].
    apply Forall_forall. intros e He'%numbered_scores. simpl. lia.
  - intros r1 d1. destruct (exists_ key d) eqn:Hex.
    + intros [= <- <-]. by rewrite Hex.
    + intros [= <- <-]. destruct lines as [|l r] eqn:El.
      * cbn [seed_lines]. by rewrite Hex.
      * by rewrite exists_seed_lines by (by right).
Qed.

(** C3, as stated, fails on the value returned: seeding an empty key
    returns [undefined], not [true], and the call that finds the key
    seeded returns [undefined] as well, not the boolean [false]. *)
Lemma seedChatHistory_returns_undefined :
  let seedContent := "Hi" +:+ nl +:+ nl +:+ "How are you?" in
  ∃ d1,
    seedChatHistory seedContent (nl +:+ nl) (Some example_key) ∅
      = Normal (JUndefined, d1) ∧
    entries (generateRedisCompanionKey example_key) d1
      = [("Hi", 0); ("How are you?", 1)] ∧
    seedChatHistory seedContent (nl +:+ nl) (Some example_key) d1
      = Normal (JUndefined, d1) ∧
    JUndefined ≠ JBool true ∧ JUndefined ≠ JBool false.
Proof.
  eexists. split; [reflexivity|]. split; [by vm_compute|].
  split; [by vm_compute|]. split; discriminate.
Qed.

(** A seed in which a line comes twice: the later ZADD moves the entry of
    the earlier one, and two entries are left for three lines. *)
Example seedChatHistory_repeated_line :
  ∃ d1,
    seedChatHistory ("a" +:+ nl +:+ "b" +:+ nl +:+ "a") nl (Some example_key) ∅
      = Normal (JUndefined, d1) ∧
    entries (generateRedisCompanionKey example_key) d1 = [("b", 1); ("a", 2)].
Proof. eexists. split; [reflexivity|]. by vm_compute. Qed.

(** ** The guard on the key *)

(** C10: for a key whose [userId] is [undefined], [writeToHistory] and
    [readLatestHistory] answer the empty string and touch nothing, while
    [seedChatHistory] derives the key that ends in the word undefined and,
    when that key does not exist, writes the seed lines under it. *)
Theorem seedChatHistory_no_guard
    (cn mn text seedContent delimiter : string) (now : Z) (d : db) :
  let ck := {| companionName := cn; modelName := mn; userId := None |} in
  let key := generateRedisCompanionKey ck in
  let lines := split delimiter seedContent in
  exists_ key d = false →
  writeToHistory text (Some ck) now d = (JStr "", d) ∧
  readLatestHistory (Some ck) now d = Normal "" ∧
  key = cn +:+ "-" +:+ mn +:+ "-" +:+ "undefined" ∧
  seedChatHistory seedContent delimiter (Some ck) d
    = Normal (JUndefined, seed_lines key lines 0 d) ∧
  (∀ line, line ∈ lines → is_Some (zscore key line (seed_lines key lines 0 d))) ∧
  (lines ≠ [] → exists_ key (seed_lines key lines 0 d) = true).
Proof.
  intros ck key lines Hex.
  split; [done|]. split; [done|]. split; [done|].
  split; [unfold seedChatHistory; fold key; by rewrite Hex|].
  split; [intros line; apply seed_lines_member|].
  intros Hne. apply exists_seed_lines. by right.
Qed.

Lemma seedChatHistory_no_guard_witness :
  seedChatHistory "Hi" nl
    (Some {| companionName := "c1"; modelName := "gpt-4"; userId := None |}) ∅
  = Normal (JUndefined, seed_lines "c1-gpt-4-undefined" (split nl "Hi") 0 ∅).
Proof.
  exact (proj1 (proj2 (proj2 (proj2
    (seedChatHistory_no_guard "c1" "gpt-4" "x" "Hi" nl 0 ∅ eq_refl))))).
Defined.

Example seedChatHistory_no_guard_entries :
  entries "c1-gpt-4-undefined" (seed_lines "c1-gpt-4-undefined" (split nl "Hi") 0 ∅)
  = [("Hi", 0)].
Proof. by vm_compute. Qed.

(** ** The repetition check *)

Lemma count_of_cons (w x : string) (ws : list string) :
  count_of w (x :: ws) =
  ((if decide (x = w) then 1 else 0) + count_of w ws)%nat.
Proof.
  unfold count_of. destruct (decide (x = w)) as [->|Hne].
  - by rewrite filter_cons_True.
  - by rewrite filter_cons_False.
Qed.

Lemma count_of_zero (w : string) (ws : list string) :
  count_of w ws = 0%nat ↔ w ∉ ws.
Proof.
  induction ws as [|x ws IH].
  - split; [intros _; apply not_elem_of_nil|done].
  - rewrite count_of_cons, not_elem_of_cons.
    destruct (decide (x = w)) as [->|Hne]; [split; [lia|by intros [? _]]|].
    rewrite <- IH. split; [intros ?; split; [done|lia]|intros [_ ?]; lia].
Qed.

(** The counting loop, started on any map. *)
Lemma wordMap_loop_lookup (ws : list string) (m : gmap string nat) (w : string) :
  foldl (λ m word, <[word := (default 0 (m !! word) + 1)%nat]> m) m ws !! w =
  if decide (count_of w ws = 0%nat) then m !! w
  else Some (default 0 (m !! w) + count_of w ws)%nat.
Proof.
  revert m. induction ws as [|x ws IH]; intros m; [done|].
  cbn [foldl]. rewrite IH, count_of_cons.
  destruct (decide (x = w)) as [->|Hne].
  - rewrite lookup_insert_eq. cbn [default].
    destruct (decide (count_of w ws = 0%nat)) as [->|?].
    + rewrite decide_False by lia. unfold id. apply f_equal; lia.
    + rewrite decide_False by lia. unfold id. apply f_equal; lia.
  - rewrite lookup_insert_ne by done.
    destruct (decide (count_of w ws = 0%nat)) as [E|?].
    + by rewrite decide_True by lia.
    + by rewrite decide_False by lia.
Qed.

Lemma wordMap_lookup (ws : list string) (w : string) :
  wordMap ws !! w =
  if decide (count_of w ws = 0%nat) then None else Some (count_of w ws).
Proof. unfold wordMap. by rewrite wordMap_loop_lookup, lookup_empty. Qed.

Lemma wordMap_to_list (ws : list string) :
  map_to_list (wordMap ws) ≡ₚ (λ w, (w, count_of w ws)) <$> remove_dups ws.
Proof.
  apply NoDup_Permutation.
  - apply NoDup_map_to_list.
  - apply NoDup_fmap_2_strong; [|apply NoDup_remove_dups].
    by intros x y _ _ [= ->].
  - intros [w c]. rewrite elem_of_map_to_list, wordMap_lookup, list_elem_of_fmap.
    setoid_rewrite elem_of_remove_dups. split.
    + destruct (decide (count_of w ws = 0%nat)) as [?|Hne]; [done|].
      intros [= <-]. exists w. split; [done|]. by apply dec_stable; rewrite <- count_of_zero.
    + intros (w' & [= -> ->] & Hin).
      rewrite decide_False; [done|]. by rewrite count_of_zero; intros ?.
Qed.

(** The loop that adds up the common words computes the overlap. *)
Lemma commonWords_overlap (a b : list string) :
  commonWords (wordMap a) (wordMap b) = overlap a b.
Proof.
  unfold commonWords, overlap. rewrite map_fold_foldr.
  transitivity (sum_list_with
    (λ e : string * nat, Nat.min e.2 (count_of e.1 b)) (map_to_list (wordMap a))).
  - induction (map_to_list (wordMap a)) as [|[w c] l IH]; [done|].
    cbn [foldr sum_list_with uncurry fst snd]. rewrite IH, wordMap_lookup.
    destruct (decide (count_of w b = 0%nat)) as [->|?]; lia.
  - rewrite wordMap_to_list.
    induction (remove_dups a) as [|w l IH]; [done|].
    csimpl. by rewrite IH.
Qed.

Lemma exceeds_threshold_ratio (common longest : nat) :
  exceeds_threshold common longest = true ↔
  (0 < longest)%nat ∧
  (6 # 10 < inject_Z (Z.of_nat common) / inject_Z (Z.of_nat longest))%Q.
Proof.
  unfold exceeds_threshold. destruct longest as [|n]; [split; [done|lia]|].
  rewrite negb_true_iff, <- not_true_iff_false, Qle_bool_iff.
  split.
  - intros Hn. split; [lia|]. by apply Qnot_le_lt.
  - intros [_ Hlt]. by apply Qlt_not_le.
Qed.



Lemma overlap_nil_l (b : list string) : overlap [] b = 0%nat.
Proof. reflexivity. Qed.





(** A repeated prompt is flagged, and the first match is the exemplar. *)
Example repetition_check_example :
  let msg c := {| content := c; role := "system";
                  msg_userId := "u1"; msg_companionId := "c1" |} in
  let recent := [msg "fine thanks"; msg "Tell me a story"; msg "tell me A story"] in
  isRepetitive "tell me a story" recent = true ∧
  lastResponse "tell me a story" recent = "Tell me a story" ∧
  isSimilar "a b c d e" (msg "a b c") = false.
Proof. by vm_compute. Qed.

(** ** Vector search *)

(** C6: once the handle on the vector store is there, [vectorSearch] never
    throws: an error of the similarity search, which embeds the query and
    queries the index, is caught and an empty list is returned in its
    place; a search that succeeds hands its documents on. *)
Theorem vectorSearch_catches_search_errors
    (vs : VectorService)
    (recentChatHistory companionFileName vectorStore : string) :
  fromExistingIndex vs companionFileName = Normal vectorStore →
  let searched :=
    similaritySearch vs vectorStore (truncateText recentChatHistory) 5 (7 # 10) in
  ∃ docs,
    vectorSearch vs recentChatHistory companionFileName = Normal docs ∧
    (∀ err, searched = Throw err → docs = []) ∧
    (∀ similarDocs, searched = Normal similarDocs → docs = similarDocs).
Proof.
  intros Hstore searched. unfold vectorSearch. rewrite Hstore.
  change (Normal vectorStore ≫= ?k) with (k vectorStore). cbv beta.
  fold searched. destruct searched as [similarDocs|err].
  - exists similarDocs. split; [done|]. split; [done|]. by intros ? [= ->].
  - exists []. split; [done|]. split; [done|]. done.
Qed.

Lemma vectorSearch_catches_search_errors_witness :
  ∃ docs,
    vectorSearch failing_vector_service "User: hi" "c1.txt" = Normal docs ∧
    (∀ err, @Throw (list Document) "embedding request failed" = Throw err →
       docs = []) ∧
    (∀ similarDocs,
       Throw "embedding request failed" = Normal similarDocs →
       docs = similarDocs).
Proof.
  exact (vectorSearch_catches_search_errors
           failing_vector_service "User: hi" "c1.txt" "c1.txt" eq_refl).
Defined.

Example vectorSearch_failing_search :
  vectorSearch failing_vector_service "User: hi" "c1.txt" = Normal [].
Proof. reflexivity. Qed.

(** The handle on the store is taken before the [try] block: an error
    there leaves [vectorSearch]. *)
Lemma vectorSearch_store_error
    (vs : VectorService) (recentChatHistory companionFileName e : string) :
  fromExistingIndex vs companionFileName = Throw e →
  vectorSearch vs recentChatHistory companionFileName = Throw e.
Proof. intros H. unfold vectorSearch. by rewrite H. Qed.

(** ** The request handler *)

(** *** The timer and the stream *)

Lemma fire_timer_stores (w : World) :
  history (fire_timer w) = history w ∧
  message_rows (fire_timer w) = message_rows w.
Proof. unfold fire_timer. by destruct (timer_pending w). Qed.

Lemma stream_loop_any_world (evs : list StreamEvent) (st : StreamState)
    (w w' : World) :
  (stream_loop evs st w).1 = (stream_loop evs st w').1.
Proof.
  revert st w w'. induction evs as [|[text|] rest IH]; intros st w w'; [done| |].
  - cbn [stream_loop]. case_bool_decide; apply IH.
  - cbn [stream_loop]. apply IH.
Qed.

(** The loop reads no flag of the controller: what it accumulates and hands
    to the caller is what it would without the timer, and it leaves both
    stores alone. *)
Lemma stream_loop_timer (evs : list StreamEvent) (st : StreamState) (w : World) :
  (stream_loop evs st w).1 = (stream_loop (without_timer evs) st w).1 ∧
  history (stream_loop evs st w).2 = history w ∧
  message_rows (stream_loop evs st w).2 = message_rows w.
Proof.
  revert st w. induction evs as [|[text|] rest IH]; intros st w; [done| |].
  - cbn [stream_loop without_timer]. case_bool_decide; apply IH.
  - cbn [stream_loop without_timer].
    destruct (IH st (fire_timer w)) as (E1 & E2 & E3).
    destruct (fire_timer_stores w) as [F1 F2].
    rewrite E1, E2, E3, F1, F2. split; [|done].
    apply stream_loop_any_world.
Qed.

(** The firing of the timer changes neither the response of the stream nor
    what is written when it ends. *)
Lemma stream_start_timer (sv : Services) (chatId uid : string)
    (ck : option CompanionKey) (ms : ModelStream) (w : World) :
  let ms' := {| events := without_timer (events ms); failure := failure ms |} in
  let out := stream_start sv chatId uid ck ms w in
  let out' := stream_start sv chatId uid ck ms' w in
  out.1 = out'.1 ∧
  history out.2 = history out'.2 ∧
  message_rows out.2 = message_rows out'.2.
Proof.
  intros ms' out out'. subst out out' ms'. unfold stream_start. cbn [events failure].
  pose proof (stream_loop_timer (events ms) {| fullResponse := ""; enqueued := [] |} w)
    as (E1 & E2 & E3).
  pose proof (stream_loop_timer (without_timer (events ms))
                {| fullResponse := ""; enqueued := [] |} w) as (_ & E2' & E3').
  destruct (stream_loop (events ms) _ w) as [st w1].
  destruct (stream_loop (without_timer (events ms)) _ w) as [st' w1'].
  cbn [fst snd] in *. subst st'.
  destruct (failure ms); [cbn [fst snd]; by rewrite E2, E3, E2', E3'|].
  case_bool_decide; [|cbn [fst snd]; by rewrite E2, E3, E2', E3'].
  rewrite E2, E2'.
  destruct (writeToHistory _ ck (date_now sv 3) (history w)) as [r d].
  unfold companion_update_call, add_row, set_history.
  destruct (companion_update sv chatId _); cbn; by rewrite ?E3, ?E3'.
Qed.

(** C2 fails on the code. The model sends a part, the timer fires 30
    seconds after the handler started, the model sends another part and
    ends: the controller is aborted, and yet both parts reach the caller,
    the stream closes normally, and the whole reply is written to the
    history store and to the message table. *)
Theorem timeout_leaves_generation_running :
  let stream :=
    {| events := [Part "Once"; TimerFires; Part " upon"]; failure := None |} in
  let out := POST (example_services true stream) "/api/chat/c1" "c1" empty_world in
  out.1 = StreamingTextResponse ["Once"; " upon"] Closed ∧
  aborted out.2 = true ∧
  message_rows out.2 =
    [ {| content := "tell me a story"; role := "user";
         msg_userId := "u1"; msg_companionId := "c1" |};
      {| content := "Once upon"; role := "system";
         msg_userId := "u1"; msg_companionId := "c1" |} ] ∧
  zscore "c1-gpt-4-u1" "Once upon" (history out.2) = Some 1003.
Proof. by vm_compute. Qed.

(** *** The rows of the message table *)

Lemma extends_rows_bind {A B} (m : handler A) (k : A → handler B) :
  extends_rows m → (∀ a, extends_rows (k a)) → extends_rows (m ≫= k).
Proof.
  intros Hm Hk w. unfold mbind, handler_bind.
  destruct (Hm w) as [more1 E1]. destruct (m w) as [[a|r|e] w1]; cbn [snd] in *.
  - destruct (Hk a w1) as [more2 E2]. exists (more1 ++ more2).
    by rewrite E2, E1, app_assoc.
  - by exists more1.
  - by exists more1.
Qed.

Lemma extends_rows_same {A} (m : handler A) :
  (∀ w, message_rows (m w).2 = message_rows w) → extends_rows m.
Proof. intros H w. exists []. by rewrite H, app_nil_r. Qed.

Lemma extends_rows_await {A} (c : completion A) : extends_rows (await c).
Proof. by apply extends_rows_same. Qed.

Lemma extends_rows_respond {A} (r : Response) : extends_rows (@respond A r).
Proof. by apply extends_rows_same. Qed.

Lemma extends_rows_ret {A} (a : A) : extends_rows (mret a).
Proof. by apply extends_rows_same. Qed.

Lemma extends_rows_read (ck : option CompanionKey) (now : Z) :
  extends_rows (read_history ck now).
Proof. apply extends_rows_same. intros w. by unfold read_history, await. Qed.

Lemma extends_rows_write (text : string) (ck : option CompanionKey) (now : Z) :
  extends_rows (write_history text ck now).
Proof.
  apply extends_rows_same. intros w. unfold write_history.
  by destruct (writeToHistory text ck now (history w)).
Qed.

Lemma extends_rows_seed (seedContent delimiter : string)
    (ck : option CompanionKey) :
  extends_rows (seed_history seedContent delimiter ck).
Proof.
  apply extends_rows_same. intros w. unfold seed_history.
  by destruct (seedChatHistory seedContent delimiter ck (history w)) as [[r d]|e].
Qed.

Lemma extends_rows_stream (sv : Services) (chatId uid : string)
    (ck : option CompanionKey) (ms : ModelStream) :
  extends_rows (stream_response sv chatId uid ck ms).
Proof.
  intros w. unfold stream_response, stream_start.
  pose proof (stream_loop_timer (events ms) {| fullResponse := ""; enqueued := [] |} w)
    as (_ & _ & E).
  destruct (stream_loop (events ms) _ w) as [st w1]. cbn [snd] in E.
  destruct (failure ms); [exists []; cbn; by rewrite E, app_nil_r|].
  case_bool_decide; [|exists []; cbn; by rewrite E, app_nil_r].
  destruct (writeToHistory _ ck (date_now sv 3) (history w1)) as [r d].
  unfold companion_update_call, add_row, set_history.
  destruct (companion_update sv chatId _); cbn; rewrite E.
  - by eexists.
  - exists []. by rewrite app_nil_r.
Qed.

Lemma extends_rows_reply (sv : Services) (chatId uid prompt : string)
    (companion : Companion) :
  extends_rows (POST_reply sv chatId uid prompt companion).
Proof.
  unfold POST_reply.
  repeat first
    [ apply extends_rows_bind; [|intros ?]
    | apply extends_rows_read | apply extends_rows_await
    | apply extends_rows_write | apply extends_rows_stream
    | case_bool_decide; [apply extends_rows_seed|apply extends_rows_ret] ].
Qed.

(** The handler of an authenticated request whose body parses and whose
    turn is written: the turn is a row before the verdict of the rate limit
    is looked at. *)
Lemma POST_authenticated
    (sv : Services) (url chatId prompt uid : string) (w : World) :
  let userTurn :=
    {| content := prompt; role := "user";
       msg_userId := uid; msg_companionId := chatId |} in
  let w1 := add_row userTurn (arm_timer w) in
  request_json sv = Normal prompt →
  currentUser sv = Normal (Some uid) → uid ≠ "" →
  message_create sv userTurn = Normal () →
  POST sv url chatId w =
  match ratelimit sv (url +:+ "-" +:+ uid),
        companion_findUnique sv chatId uid with
  | Normal false, Normal _ => (NextResponse "Rate limit exceeded" 429, w1)
  | Normal true, Normal None => (NextResponse "Companion not found" 404, w1)
  | Normal true, Normal (Some companion) =>
      catch_all (POST_reply sv chatId uid prompt companion w1)
  | _, _ => (NextResponse "Internal Error" 500, clear_timer w1)
  end.
Proof.
  intros userTurn w1 Hjson Huser Huid Hcreate.
  unfold POST, POST_try, mbind, handler_bind, await, settle, message_create_call.
  rewrite Hjson, Huser. cbv beta iota zeta.
  rewrite (bool_decide_eq_false_2 _ Huid). fold userTurn. rewrite Hcreate.
  fold w1.
  by destruct (ratelimit sv _) as [[]|e],
    (companion_findUnique sv chatId uid) as [[companion|]|e'].
Qed.

(** C7: for an authenticated request the user's turn is written while the
    rate limit is asked and the persona is loaded: once the write
    succeeds the turn is in the message table whatever the handler answers,
    and when the rate limit denies (the persona load succeeding) the answer
    is 429, the turn is the one row added, and the history store is
    untouched. *)
Theorem rate_limit_denial_keeps_user_turn
    (sv : Services) (url chatId prompt uid : string) (w : World) :
  let userTurn :=
    {| content := prompt; role := "user";
       msg_userId := uid; msg_companionId := chatId |} in
  request_json sv = Normal prompt →
  currentUser sv = Normal (Some uid) → uid ≠ "" →
  message_create sv userTurn = Normal () →
  (∃ more,
     message_rows (POST sv url chatId w).2 = message_rows w ++ userTurn :: more) ∧
  (∀ companion,
     ratelimit sv (url +:+ "-" +:+ uid) = Normal false →
     companion_findUnique sv chatId uid = Normal companion →
     (POST sv url chatId w).1 = NextResponse "Rate limit exceeded" 429 ∧
     message_rows (POST sv url chatId w).2 = message_rows w ++ [userTurn] ∧
     history (POST sv url chatId w).2 = history w).
Proof.
  intros userTurn Hjson Huser Huid Hcreate.
  rewrite (POST_authenticated sv url chatId prompt uid w Hjson Huser Huid Hcreate).
  fold userTurn. split.
  - destruct (ratelimit sv _) as [[]|e],
      (companion_findUnique sv chatId uid) as [[companion|]|e'];
      try (by exists []).
    destruct (extends_rows_reply sv chatId uid prompt companion
                (add_row userTurn (arm_timer w))) as [more E].
    exists more.
    destruct (POST_reply sv chatId uid prompt companion _) as [[r|r|e] w'];
      cbn [snd] in *; cbn; rewrite E; cbn; by rewrite <- app_assoc.
  - intros companion Hlimit Hfound. by rewrite Hlimit, Hfound.
Qed.

(** A denied request: the answer is 429 and the turn is recorded. *)
Lemma rate_limit_denial_keeps_user_turn_witness :
  let sv := example_services false {| events := []; failure := None |} in
  let out := POST sv "/api/chat/c1" "c1" empty_world in
  out.1 = NextResponse "Rate limit exceeded" 429 ∧
  message_rows out.2 =
    [ {| content := "tell me a story"; role := "user";
         msg_userId := "u1"; msg_companionId := "c1" |} ] ∧
  history out.2 = ∅.
Proof.
  exact (proj2 (rate_limit_denial_keeps_user_turn
                  (example_services false {| events := []; failure := None |})
                  "/api/chat/c1" "c1" "tell me a story" "u1" empty_world
                  eq_refl eq_refl ltac:(discriminate) eq_refl)
               (Some example_companion) eq_refl eq_refl).
Defined.

(** * Further properties *)

(** ** Keys *)

Lemma length_append (a b : string) :
  String.length (a +:+ b) = (String.length a + String.length b)%nat.
Proof.
  induction a as [|c a IH]; [done|].
  rewrite append_cons. simpl. by rewrite IH.
Qed.

Lemma append_inj_r (a b s : string) : a +:+ s = b +:+ s → a = b.
Proof.
  intros E.
  assert (String.length a = String.length b) as Hlen.
  { apply (f_equal String.length) in E. rewrite !length_append in E. lia. }
  revert b E Hlen. induction a as [|c a IH]; intros [|c' b] E Hlen;
    try done.
  rewrite !append_cons in E. injection E as -> E.
  f_equal. apply IH; [done|]. simpl in Hlen. lia.
Qed.

(** What [readLatestHistory] answers depends on the sorted set of its key
    alone. *)
Lemma readLatestHistory_ext (ck : option CompanionKey) (now : Z) (d d' : db) :
  (∀ c, ck = Some c →
     zset_of (generateRedisCompanionKey c) d
     = zset_of (generateRedisCompanionKey c) d') →
  readLatestHistory ck now d = readLatestHistory ck now d'.
Proof.
  intros H. destruct ck as [c|]; [|done].
  unfold readLatestHistory, RedisClient.zrange, zrange_byScore, entries.
  by rewrite (H c eq_refl).
Qed.

Lemma zset_of_other_key (key k : string) (d d' : db) :
  d' !! k = d !! k → zset_of k d' = zset_of k d.
Proof. unfold zset_of. by intros ->. Qed.

Lemma writeToHistory_other_key (text : string) (ck : CompanionKey) (now : Z)
    (d : db) (k : string) :
  k ≠ generateRedisCompanionKey ck →
  (writeToHistory text (Some ck) now d).2 !! k = d !! k.
Proof.
  intros Hk. unfold writeToHistory. cbn [key_set_incorrectly].
  case_bool_decide; [done|].
  pose proof (zadd_other_key (generateRedisCompanionKey ck) k now text d Hk) as E.
  by destruct (zadd _ now text d).
Qed.

Lemma seedChatHistory_other_key (seedContent delimiter : string)
    (ck : CompanionKey) (d d1 : db) (r : jsval) (k : string) :
  k ≠ generateRedisCompanionKey ck →
  seedChatHistory seedContent delimiter (Some ck) d = Normal (r, d1) →
  d1 !! k = d !! k.
Proof.
  intros Hk. unfold seedChatHistory. case_match; intros [= _ <-]; [done|].
  by apply seed_lines_other_key.
Qed.

(** Two keys of one model get different Redis keys when they differ in
    the user alone, or in the persona alone. *)
Lemma generateRedisCompanionKey_differs (ck1 ck2 : CompanionKey) (u1 u2 : string) :
  modelName ck1 = modelName ck2 →
  userId ck1 = Some u1 → userId ck2 = Some u2 →
  (companionName ck1 = companionName ck2 ∧ u1 ≠ u2) ∨
  (companionName ck1 ≠ companionName ck2 ∧ u1 = u2) →
  generateRedisCompanionKey ck1 ≠ generateRedisCompanionKey ck2.
Proof.
  intros Hm Hu1 Hu2 Hcase E. unfold generateRedisCompanionKey in E.
  rewrite Hu1, Hu2, Hm in E. cbn [template_arg default from_option id] in E.
  destruct Hcase as [[Hc Hu]|[Hc ->]].
  - rewrite Hc in E. by repeat apply (inj (String.app _)) in E.
  - apply Hc. rewrite <- !append_assoc in E.
    by do 4 apply append_inj_r in E.
Qed.

(** X1: What one user appends or seeds under a persona changes nothing in what
    another user of that persona reads, and the same holds for one user
    and two personas. *)
Theorem history_isolation
    (ck1 ck2 : CompanionKey) (u1 u2 text seedContent delimiter : string)
    (now now' : Z) (d : db) :
  modelName ck1 = modelName ck2 →
  userId ck1 = Some u1 → userId ck2 = Some u2 →
  (companionName ck1 = companionName ck2 ∧ u1 ≠ u2) ∨
  (companionName ck1 ≠ companionName ck2 ∧ u1 = u2) →
  readLatestHistory (Some ck2) now' (writeToHistory text (Some ck1) now d).2
    = readLatestHistory (Some ck2) now' d ∧
  (∀ r d1,
     seedChatHistory seedContent delimiter (Some ck1) d = Normal (r, d1) →
     readLatestHistory (Some ck2) now' d1 = readLatestHistory (Some ck2) now' d).
Proof.
  intros Hm Hu1 Hu2 Hcase.
  pose proof (generateRedisCompanionKey_differs ck1 ck2 u1 u2 Hm Hu1 Hu2 Hcase) as Hk.
  split.
  - apply readLatestHistory_ext. intros c [= <-].
    apply zset_of_other_key; [done|]. by apply writeToHistory_other_key.
  - intros r d1 Hseed. apply readLatestHistory_ext. intros c [= <-].
    apply zset_of_other_key; [done|].
    by eapply seedChatHistory_other_key.
Qed.


Lemma history_isolation_witness :
  readLatestHistory
    (Some {| companionName := "c1"; modelName := "gpt-4"; userId := Some "u2" |}) 3000
    (writeToHistory "User: hi"
       (Some {| companionName := "c1"; modelName := "gpt-4"; userId := Some "u1" |})
       1000 ∅).2
  = readLatestHistory
      (Some {| companionName := "c1"; modelName := "gpt-4"; userId := Some "u2" |})
      3000 ∅.
Proof.
  refine (proj1 (history_isolation
    {| companionName := "c1"; modelName := "gpt-4"; userId := Some "u1" |}
    {| companionName := "c1"; modelName := "gpt-4"; userId := Some "u2" |}
    "u1" "u2" "User: hi" "" "" 1000 3000 ∅ _ _ _ _)).
  - reflexivity.
  - reflexivity.
  - reflexivity.
  - left. split; [reflexivity|discriminate].
Defined.

(** ** Appends and what is read back *)

(** The store after an append under a well-formed key. *)
Lemma writeToHistory_store (cn mn u text : string) (now : Z) (d : db) :
  let ck := {| companionName := cn; modelName := mn; userId := Some u |} in
  writeToHistory text (Some ck) now d =
  (JNum (zadd (generateRedisCompanionKey ck) now text d).1,
   (zadd (generateRedisCompanionKey ck) now text d).2).
Proof.
  intros ck. unfold writeToHistory. cbn [key_set_incorrectly userId ck].
  rewrite bool_decide_eq_false_2 by done.
  by destruct (zadd _ now text d).
Qed.




(** A member appended with a score above all others is the last entry. *)
Lemma entries_zadd_latest (key text : string) (now : Z) (d : db) :
  (∀ m s, zscore key m d = Some s → s < now) →
  entries key (zadd key now text d).2
  = filter (λ e, e.1 ≠ text) (entries key d) ++ [(text, now)].
Proof.
  intros Hlt. apply sorted_entries_unique.
  - apply NoDup_entries.
  - apply NoDup_app. split; [apply NoDup_filter, NoDup_entries|]. split.
    + intros [m s] [Hm _]%list_elem_of_filter [= -> ->]%list_elem_of_singleton.
      by apply Hm.
    + apply NoDup_singleton.
  - intros [m s]. rewrite elem_of_entries. unfold zscore.
    rewrite zset_of_zadd, elem_of_app, list_elem_of_filter, elem_of_entries,
      list_elem_of_singleton. unfold zscore. simpl.
    destruct (decide (m = text)) as [->|Hne].
    + rewrite lookup_insert_eq. split.
      * intros [= <-]. by right.
      * intros [[? _]|[= ->]]; done.
    + rewrite lookup_insert_ne by done. split.
      * intros ?. by left.
      * intros [[_ ?]|[= ? _]]; done.
  - apply entries_sorted.
  - apply StronglySorted_app_2.
    + intros [m s] x2 [_ Hin]%list_elem_of_filter ->%list_elem_of_singleton.
      apply elem_of_entries in Hin. left. simpl. by eapply Hlt.
    + eapply StronglySorted_sublist; [apply sublist_filter|apply entries_sorted].
    + repeat constructor.
Qed.



Example readLatestHistory_after_write_example :
  let ck := {| companionName := "c1"; modelName := "gpt-4"; userId := Some "u1" |} in
  let d := (writeToHistory "User: hi" (Some ck) 1000 ∅).2 in
  readLatestHistory (Some ck) 3000 (writeToHistory "Hello!" (Some ck) 2000 d).2
  = Normal ("User: hi" +:+ nl +:+ "Hello!").
Proof. by vm_compute. Qed.

Lemma zadd_fst (key : string) (score : Z) (member : string) (d : db) :
  (zadd key score member d).1
  = if zset_of key d !! member is Some _ then 0 else 1.
Proof. reflexivity. Qed.

Lemma zadd_snd (key : string) (score : Z) (member : string) (d : db) :
  (zadd key score member d).2
  = <[key := <[member := score]> (zset_of key d)]> d.
Proof. reflexivity. Qed.

(** ZADD on one key with two different members, or on two different keys,
    gives the same store in either order. *)
Lemma zadd_commute (k1 k2 a b : string) (t1 t2 : Z) (d : db) :
  k1 ≠ k2 ∨ a ≠ b →
  (zadd k1 t1 a (zadd k2 t2 b d).2).2 = (zadd k2 t2 b (zadd k1 t1 a d).2).2.
Proof.
  intros Hne. unfold zadd. cbn [snd]. unfold zset_of.
  destruct (decide (k1 = k2)) as [->|Hk].
  - rewrite !lookup_insert_eq. cbn [default from_option id].
    rewrite !insert_insert_eq. f_equal.
    destruct Hne as [?|Hab]; [done|]. by apply insert_insert_ne.
  - rewrite !lookup_insert_ne by done. by apply insert_insert_ne.
Qed.

(** X3: Two appends give the same store in either order, unless they append
    the same text under the same key. *)
Theorem writeToHistory_commute
    (cn1 mn1 u1 cn2 mn2 u2 a b : string) (t1 t2 : Z) (d : db) :
  let ck1 := {| companionName := cn1; modelName := mn1; userId := Some u1 |} in
  let ck2 := {| companionName := cn2; modelName := mn2; userId := Some u2 |} in
  generateRedisCompanionKey ck1 ≠ generateRedisCompanionKey ck2 ∨ a ≠ b →
  (writeToHistory a (Some ck1) t1 (writeToHistory b (Some ck2) t2 d).2).2
  = (writeToHistory b (Some ck2) t2 (writeToHistory a (Some ck1) t1 d).2).2.
Proof.
  intros ck1 ck2 Hne. subst ck1 ck2.
  rewrite !writeToHistory_store. cbn [snd]. by apply zadd_commute.
Qed.

Lemma writeToHistory_commute_witness :
  let ck := {| companionName := "c1"; modelName := "gpt-4"; userId := Some "u1" |} in
  (writeToHistory "User: hi" (Some ck) 1000
     (writeToHistory "Hello!" (Some ck) 2000 ∅).2).2
  = (writeToHistory "Hello!" (Some ck) 2000
       (writeToHistory "User: hi" (Some ck) 1000 ∅).2).2.
Proof.
  refine (writeToHistory_commute "c1" "gpt-4" "u1" "c1" "gpt-4" "u1"
            "User: hi" "Hello!" 1000 2000 ∅ _).
  right. discriminate.
Defined.

(** The same text under one key at two different times does not commute:
    the later call decides the score. *)
Example writeToHistory_same_text_last_wins :
  let ck := Some example_key in
  let key := generateRedisCompanionKey example_key in
  entries key (writeToHistory "hi" ck 1000 (writeToHistory "hi" ck 2000 ∅).2).2
    = [("hi", 1000)] ∧
  entries key (writeToHistory "hi" ck 2000 (writeToHistory "hi" ck 1000 ∅).2).2
    = [("hi", 2000)].
Proof. by vm_compute. Qed.

(** X4: An append that is sent again with the same text and the same time
    changes nothing and reports that no entry was added. *)
Theorem writeToHistory_retry (cn mn u text : string) (now : Z) (d : db) :
  let ck := {| companionName := cn; modelName := mn; userId := Some u |} in
  let d' := (writeToHistory text (Some ck) now d).2 in
  writeToHistory text (Some ck) now d' = (JNum 0, d').
Proof.
  intros ck d'. subst d' ck. rewrite !writeToHistory_store. cbn [fst snd].
  set (key := generateRedisCompanionKey _).
  rewrite (zadd_fst key now text (zadd key now text d).2).
  rewrite (zadd_snd key now text (zadd key now text d).2).
  rewrite (zset_of_zadd key now text d), lookup_insert_eq, insert_insert_eq.
  rewrite (zadd_snd key now text d). by rewrite insert_insert_eq.
Qed.

(** X5: Once anything has been appended under a key, seeding it is a no-op. *)
Theorem seedChatHistory_after_write
    (cn mn u text seedContent delimiter : string) (now : Z) (d : db) :
  let ck := {| companionName := cn; modelName := mn; userId := Some u |} in
  let d' := (writeToHistory text (Some ck) now d).2 in
  seedChatHistory seedContent delimiter (Some ck) d' = Normal (JUndefined, d').
Proof.
  intros ck d'. subst d' ck. rewrite writeToHistory_store. cbn [snd].
  unfold seedChatHistory. by rewrite exists_zadd.
Qed.

(** ** Splitting and joining *)

Lemma prefix_append (sep s : string) :
  String.prefix sep s = true → ∃ r, s = sep +:+ r.
Proof.
  revert s. induction sep as [|c sep IH]; intros s; [by exists s|].
  destruct s as [|c' s]; [done|]. simpl.
  destruct (ascii_dec c c') as [->|]; [|done].
  intros [r ->]%IH. by exists r.
Qed.

Lemma split_go_skip (sep t r : string) :
  split_go sep (String.length t) (t +:+ r) = split_go sep 0 r.
Proof. induction t as [|c t IH]; [by destruct r|]. by rewrite append_cons. Qed.

Lemma split_go_cons (sep : string) (k : nat) (s : string) :
  ∃ p ps, split_go sep k s = p :: ps.
Proof.
  revert k. induction s as [|c s IH]; intros k; [by eexists _, _|].
  destruct k as [|k]; [|apply IH].
  cbn [split_go]. destruct (String.prefix sep (String c s)); [by eexists _, _|].
  destruct (IH 0%nat) as (p & ps & ->). by eexists _, _.
Qed.

Lemma join_cons_empty (sep : string) (p : string) (ps : list string) :
  join sep ("" :: p :: ps) = sep +:+ join sep (p :: ps).
Proof. reflexivity. Qed.

Lemma join_cons_piece (sep : string) (c : ascii) (p : string) (ps : list string) :
  join sep (cons_piece c (p :: ps)) = String c (join sep (p :: ps)).
Proof. apply concat_cons_char. Qed.

Lemma join_split_go (sep : string) (n : nat) (s : string) :
  sep ≠ "" → (String.length s ≤ n)%nat → join sep (split_go sep 0 s) = s.
Proof.
  intros Hsep. revert s. induction n as [|n IH]; intros s Hlen.
  - by destruct s; [|simpl in Hlen; lia].
  - destruct s as [|c s]; [done|]. cbn [split_go].
    destruct (String.prefix sep (String c s)) eqn:Hp.
    + apply prefix_append in Hp as [r Hr].
      destruct sep as [|c0 sep0]; [done|].
      rewrite append_cons in Hr. injection Hr as -> ->.
      cbn [String.length]. rewrite Nat.sub_1_r. cbn [Nat.pred].
      rewrite split_go_skip.
      destruct (split_go_cons (String c0 sep0) 0 r) as (p & ps & E).
      rewrite E, join_cons_empty, <- E, IH; [done|].
      simpl in Hlen. rewrite length_append in Hlen. lia.
    + destruct (split_go_cons sep 0 s) as (p & ps & E).
      rewrite E, join_cons_piece, <- E, IH; [done|]. simpl in Hlen. lia.
Qed.

(** Joining the pieces of a split with the separator gives the string
    back. *)
Lemma join_split (sep s : string) : join sep (split sep s) = s.
Proof.
  destruct sep as [|c sep].
  - unfold split. induction s as [|x s IH]; [done|].
    cbn [String.list_ascii_of_string fmap list_fmap].
    change (join "" (String x "" :: ?l)) with (String.concat "" (String x "" :: l)).
    rewrite concat_cons_char. f_equal.
    destruct s as [|y s]; [done|]. exact IH.
  - apply (join_split_go _ (String.length s)); [done|lia].
Qed.

(** ** Seeding and reading back *)

Lemma zrange_numbered (key : string) (lines : list string) (now : Z) (d : db) :
  entries key d = numbered 0 lines →
  Z.of_nat (length lines) - 1 ≤ now →
  zrange_byScore key 0 now d = lines.
Proof.
  intros He Hnow. unfold zrange_byScore. rewrite He.
  rewrite filter_all; [apply numbered_fst|].
  apply Forall_forall. intros e He'%numbered_scores. simpl. lia.
Qed.

(** X6: Seeding a fresh key and reading it back: for seed lines that are all
    different and of which none is JSON text, the history read is the last
    100 lines joined by newlines; with the newline as delimiter and at
    most 100 lines it is the seed content itself. *)
Theorem seedChatHistory_then_read
    (cn mn u seedContent delimiter : string) (now : Z) (d : db) :
  let ck := {| companionName := cn; modelName := mn; userId := Some u |} in
  let key := generateRedisCompanionKey ck in
  let lines := split delimiter seedContent in
  exists_ key d = false →
  NoDup lines →
  Forall (λ line, is_json line = false) lines →
  Z.of_nat (length lines) - 1 ≤ now →
  ∃ d1,
    seedChatHistory seedContent delimiter (Some ck) d = Normal (JUndefined, d1) ∧
    readLatestHistory (Some ck) now d1 = Normal (join nl (slice_last 100 lines)) ∧
    (delimiter = nl → (length lines ≤ 100)%nat →
       readLatestHistory (Some ck) now d1 = Normal seedContent).
Proof.
  intros ck key lines Hex Hnd Hplain Hnow.
  exists (seed_lines key lines 0 d).
  assert (readLatestHistory (Some ck) now (seed_lines key lines 0 d)
          = Normal (join nl (slice_last 100 lines))) as Hread.
  { subst ck. rewrite readLatestHistory_plain; fold key;
      rewrite (zrange_numbered key lines now _
                 (seed_lines_entries key lines d Hex Hnd) Hnow); [done|].
    by apply Forall_drop. }
  split; [|split; [done|]].
  - unfold seedChatHistory. fold key. by rewrite Hex.
  - intros Hdel Hlen. rewrite Hread. unfold slice_last.
    replace (length lines - 100)%nat with 0%nat by lia.
    rewrite drop_0. subst lines. rewrite Hdel. by rewrite join_split.
Qed.

Lemma seedChatHistory_then_read_witness :
  let ck := {| companionName := "c1"; modelName := "gpt-4"; userId := Some "u1" |} in
  ∃ d1,
    seedChatHistory ("Hi" +:+ nl +:+ "there") nl (Some ck) ∅
      = Normal (JUndefined, d1) ∧
    readLatestHistory (Some ck) 5 d1
      = Normal (join nl (slice_last 100 (split nl ("Hi" +:+ nl +:+ "there")))) ∧
    (nl = nl → (length (split nl ("Hi" +:+ nl +:+ "there")) ≤ 100)%nat →
       readLatestHistory (Some ck) 5 d1 = Normal ("Hi" +:+ nl +:+ "there")).
Proof.
  refine (seedChatHistory_then_read "c1" "gpt-4" "u1"
            ("Hi" +:+ nl +:+ "there") nl 5 ∅ _ _ _ _).
  - reflexivity.
  - apply (bool_decide_unpack _). by vm_compute.
  - apply (bool_decide_unpack _). by vm_compute.
  - vm_compute. discriminate.
Defined.

(** A seed whose lines are JSON text does not read back as it was
    written: the line [null] reads as an empty line and a line in
    quotation marks loses them. *)
Example seedChatHistory_then_read_json :
  let seedContent := "null" +:+ nl +:+ quote +:+ "Hi" +:+ quote in
  ∃ d1,
    seedChatHistory seedContent nl (Some example_key) ∅ = Normal (JUndefined, d1) ∧
    readLatestHistory (Some example_key) 5 d1 = Normal (nl +:+ "Hi").
Proof. eexists. split; [reflexivity|]. by vm_compute. Qed.

(** X7: The first message of a conversation, as [POST] orders it: the seed,
    then the user's turn with the time as score. When the seed lines are
    all different, the turn is none of them and the time is beyond their
    number, the key holds the seed lines in order and then the turn: one
    entry more than there are seed lines. When neither the turn nor a seed
    line is JSON text, the history reads as these lines and the turn. *)
Theorem first_message_history
    (cn mn u seedContent delimiter text : string) (now : Z) (d : db) :
  let ck := {| companionName := cn; modelName := mn; userId := Some u |} in
  let key := generateRedisCompanionKey ck in
  let lines := split delimiter seedContent in
  exists_ key d = false →
  NoDup lines →
  text ∉ lines →
  Z.of_nat (length lines) ≤ now →
  ∃ d1,
    seedChatHistory seedContent delimiter (Some ck) d = Normal (JUndefined, d1) ∧
    let d2 := (writeToHistory text (Some ck) now d1).2 in
    entries key d2 = numbered 0 lines ++ [(text, now)] ∧
    zcard key d2 = S (length lines) ∧
    (Forall (λ m, is_json m = false) (lines ++ [text]) →
       readLatestHistory (Some ck) now d2
       = Normal (join nl (slice_last 100 (lines ++ [text])))).
Proof.
  intros ck key lines Hex Hnd Hnotin Hnow.
  exists (seed_lines key lines 0 d).
  split; [unfold seedChatHistory; fold key; by rewrite Hex|].
  pose proof (seed_lines_entries key lines d Hex Hnd) as Hseed.
  intros d2.
  assert (entries key d2 = numbered 0 lines ++ [(text, now)]) as Hentries.
  { subst d2 key ck. rewrite writeToHistory_store. cbn [snd].
    set (key := generateRedisCompanionKey _) in *.
    rewrite entries_zadd_latest.
    - rewrite Hseed. f_equal. apply filter_all, Forall_forall.
      intros [m s] [Hm _]%elem_of_numbered_inv. simpl. by intros ->.
    - intros m s Hs%elem_of_entries. rewrite Hseed in Hs.
      apply numbered_scores in Hs. simpl in Hs. lia. }
  split; [done|]. split.
  - rewrite <- length_entries, Hentries, length_app.
    rewrite <- (length_fmap fst (numbered 0 lines)), numbered_fst. simpl. lia.
  - intros Hplain.
    assert (zrange_byScore key 0 now d2 = lines ++ [text]) as Hrange.
    { unfold zrange_byScore. rewrite Hentries.
      rewrite filter_all, fmap_app, numbered_fst; [done|].
      apply Forall_app. split.
      + apply Forall_forall. intros e He%numbered_scores. simpl. lia.
      + repeat constructor; simpl; lia. }
    subst ck. rewrite readLatestHistory_plain; fold key; rewrite Hrange; [done|].
    by apply Forall_drop.
Qed.

Lemma first_message_history_witness :
  let ck := {| companionName := "c1"; modelName := "gpt-4"; userId := Some "u1" |} in
  let lines := split (nl +:+ nl) ("Hi" +:+ nl +:+ nl +:+ "there") in
  ∃ d1,
    seedChatHistory ("Hi" +:+ nl +:+ nl +:+ "there") (nl +:+ nl) (Some ck) ∅
      = Normal (JUndefined, d1) ∧
    let d2 := (writeToHistory "User: hello" (Some ck) 1000 d1).2 in
    entries (generateRedisCompanionKey ck) d2
      = numbered 0 lines ++ [("User: hello", 1000)] ∧
    zcard (generateRedisCompanionKey ck) d2 = S (length lines) ∧
    readLatestHistory (Some ck) 1000 d2
      = Normal (join nl (slice_last 100 (lines ++ ["User: hello"]))).
Proof.
  intros ck lines.
  destruct (first_message_history "c1" "gpt-4" "u1"
              ("Hi" +:+ nl +:+ nl +:+ "there") (nl +:+ nl) "User: hello" 1000 ∅)
    as (d1 & Hseed & Hentries & Hcard & Hread).
  - reflexivity.
  - apply (bool_decide_unpack _). by vm_compute.
  - apply (bool_decide_unpack _). by vm_compute.
  - vm_compute. discriminate.
  - exists d1. split; [exact Hseed|]. split; [exact Hentries|].
    split; [exact Hcard|]. apply Hread.
    apply (bool_decide_unpack _). by vm_compute.
Defined.

Example first_message_history_read :
  let ck := {| companionName := "c1"; modelName := "gpt-4"; userId := Some "u1" |} in
  ∃ d1,
    seedChatHistory ("Hi" +:+ nl +:+ nl +:+ "there") (nl +:+ nl) (Some ck) ∅
      = Normal (JUndefined, d1) ∧
    readLatestHistory (Some ck) 1000 (writeToHistory "User: hello" (Some ck) 1000 d1).2
      = Normal ("Hi" +:+ nl +:+ "there" +:+ nl +:+ "User: hello").
Proof. eexists. split; [reflexivity|]. by vm_compute. Qed.

(** X8: An empty seed still creates the key: with a delimiter that is not empty
    the one line of the split is the empty string, which becomes the one
    entry, and the history reads as empty; with the empty delimiter there
    is no line and nothing is written. *)
Theorem seedChatHistory_empty_seed
    (ck : CompanionKey) (delimiter : string) (now : Z) (d : db) :
  let key := generateRedisCompanionKey ck in
  exists_ key d = false →
  0 ≤ now →
  (delimiter ≠ "" →
     ∃ d1, seedChatHistory "" delimiter (Some ck) d = Normal (JUndefined, d1) ∧
           entries key d1 = [("", 0)] ∧
           exists_ key d1 = true ∧
           readLatestHistory (Some ck) now d1 = Normal "") ∧
  (delimiter = "" →
     seedChatHistory "" delimiter (Some ck) d = Normal (JUndefined, d)).
Proof.
  intros key Hex Hnow. unfold seedChatHistory. fold key. rewrite Hex. split.
  - intros Hdel. destruct delimiter as [|c del]; [done|].
    change (split (String c del) "") with [""].
    eexists. split; [done|].
    pose proof (seed_lines_entries key [""] d Hex) as He.
    rewrite He by apply NoDup_singleton.
    split; [done|]. split; [apply exists_seed_lines; by right|].
    unfold readLatestHistory. destruct (key_set_incorrectly (Some ck)); [done|].
    fold key. unfold RedisClient.zrange, zrange_byScore.
    rewrite He by apply NoDup_singleton.
    cbn [numbered]. rewrite filter_cons_True by (simpl; lia). done.
  - by intros ->.
Qed.

Lemma seedChatHistory_empty_seed_witness :
  seedChatHistory "" "" (Some example_key) ∅ = Normal (JUndefined, ∅).
Proof.
  refine (proj2 (seedChatHistory_empty_seed example_key "" 0 ∅ _ _) _).
  - reflexivity.
  - lia.
  - reflexivity.
Defined.

(** ** Truncation *)

Lemma truncateText_over_budget (text : string) :
  Qle_bool (estimatedTokens (split_ws text)) (inject_Z 8000) = false →
  split_ws (truncateText text) = take (targetWords 8000) (split_ws text).
Proof.
  intros Hb. unfold truncateText, truncateText_max. rewrite Hb.
  pose proof (over_budget_length _ Hb) as Hlen. unfold slice_first.
  destruct (split_ws_go_shape text) as [(p & rest & E & Hall & Hin) _].
  fold (split_ws text) in E. rewrite E in Hlen |- *.
  assert (∃ k, targetWords 8000 = S k) as [k Hk].
  { exists (Z.to_nat 6152). rewrite targetWords_default. lia. }
  rewrite Hk in Hlen |- *. rewrite firstn_cons. simpl in Hlen.
  apply Forall_cons in Hall as [Hp Hall].
  apply split_ws_join; [done|].
  apply Forall_and. split.
  - by apply Forall_take.
  - apply inner_nonempty_take; [done|lia].
Qed.

Lemma within_budget (words : list string) :
  (length words ≤ targetWords 8000)%nat →
  Qle_bool (estimatedTokens words) (inject_Z 8000) = true.
Proof.
  rewrite targetWords_default. intros Hlen.
  apply Qle_bool_iff. unfold Qle, estimatedTokens, token_factor. simpl. lia.
Qed.

(** X10: What [truncateText] returns is within the budget by the function's own
    estimate, so truncating it again changes nothing. *)
Theorem truncateText_idempotent (text : string) :
  (estimatedTokens (split_ws (truncateText text)) <= inject_Z 8000)%Q ∧
  truncateText (truncateText text) = truncateText text.
Proof.
  assert (Qle_bool (estimatedTokens (split_ws (truncateText text)))
            (inject_Z 8000) = true) as Hfit.
  { destruct (Qle_bool (estimatedTokens (split_ws text)) (inject_Z 8000)) eqn:Hb.
    - unfold truncateText, truncateText_max. by rewrite Hb.
    - rewrite (truncateText_over_budget text Hb). apply within_budget.
      rewrite length_take. lia. }
  split; [by apply Qle_bool_iff|].
  unfold truncateText at 1. unfold truncateText_max. by rewrite Hfit.
Qed.

(** ** The overlap of two word lists *)

Lemma sum_list_with_ext {A} (f g : A → nat) (l : list A) :
  (∀ x, x ∈ l → f x = g x) → sum_list_with f l = sum_list_with g l.
Proof.
  induction l as [|x l IH]; intros H; [done|]. simpl.
  rewrite (H x) by left. rewrite IH; [done|]. intros y Hy. apply H. by right.
Qed.

Lemma sum_list_with_le {A} (f g : A → nat) (l : list A) :
  (∀ x, x ∈ l → (f x ≤ g x)%nat) →
  (sum_list_with f l ≤ sum_list_with g l)%nat.
Proof.
  induction l as [|x l IH]; intros H; [done|]. simpl.
  pose proof (H x ltac:(left)). 
  assert (sum_list_with f l ≤ sum_list_with g l)%nat
    by (apply IH; intros y Hy; apply H; by right).
  lia.
Qed.

Lemma sum_list_with_add {A} (f g : A → nat) (l : list A) :
  sum_list_with (λ x, f x + g x)%nat l
  = (sum_list_with f l + sum_list_with g l)%nat.
Proof. induction l as [|x l IH]; [done|]. simpl. rewrite IH. lia. Qed.

(** Leaving out elements that count for nothing. *)
Lemma sum_list_with_filter {A} (f : A → nat) (P : A → Prop)
    `{∀ x, Decision (P x)} (l : list A) :
  (∀ x, x ∈ l → ¬ P x → f x = 0%nat) →
  sum_list_with f (filter P l) = sum_list_with f l.
Proof.
  induction l as [|x l IH]; intros Hz; [done|].
  assert (sum_list_with f (filter P l) = sum_list_with f l) as IH'
    by (apply IH; intros y Hy; apply Hz; by right).
  destruct (decide (P x)).
  - rewrite filter_cons_True by done. simpl. by rewrite IH'.
  - rewrite filter_cons_False by done. simpl.
    rewrite (Hz x) by (done || left). by rewrite IH'.
Qed.

Lemma sum_indicator (x : string) (l : list string) :
  NoDup l → x ∈ l →
  sum_list_with (λ w, if decide (x = w) then 1 else 0)%nat l = 1%nat.
Proof.
  induction 1 as [|y l Hy Hnd IH]; [by intros ?%elem_of_nil|].
  simpl. destruct (decide (x = y)) as [->|Hne].
  - intros _. rewrite (sum_list_with_ext _ (λ _, 0%nat)).
    + clear. induction l; [done|]. simpl. lia.
    + intros w Hw. destruct (decide (y = w)) as [->|]; done.
  - intros [?|Hin]%elem_of_cons; [done|]. by rewrite IH.
Qed.

(** Over a duplicate-free list that holds every word of [a], the counts
    add up to the length of [a]. *)
Lemma sum_count_of (a l : list string) :
  NoDup l → (∀ w, w ∈ a → w ∈ l) →
  sum_list_with (λ w, count_of w a) l = length a.
Proof.
  intros Hnd. induction a as [|x a IH]; intros Hin.
  - clear. induction l; [done|]. simpl. by rewrite IHl.
  - rewrite (sum_list_with_ext _
      (λ w, (if decide (x = w) then 1 else 0) + count_of w a)%nat)
      by (intros w _; apply count_of_cons).
    rewrite sum_list_with_add, sum_indicator by (done || apply Hin; left).
    rewrite IH; [done|]. intros w Hw. apply Hin. by right.
Qed.

Lemma overlap_self (a : list string) : overlap a a = length a.
Proof.
  unfold overlap.
  rewrite (sum_list_with_ext _ (λ w, count_of w a)) by (intros; lia).
  apply sum_count_of; [apply NoDup_remove_dups|].
  intros w. by rewrite elem_of_remove_dups.
Qed.

Lemma overlap_le_l (a b : list string) : (overlap a b ≤ length a)%nat.
Proof.
  rewrite <- (overlap_self a). unfold overlap.
  apply sum_list_with_le. intros; lia.
Qed.

Lemma overlap_comm (a b : list string) : overlap a b = overlap b a.
Proof.
  unfold overlap.
  set (f := λ w, Nat.min (count_of w a) (count_of w b)).
  rewrite (sum_list_with_ext (λ w, Nat.min (count_of w b) (count_of w a)) f)
    by (intros; unfold f; lia).
  rewrite <- (sum_list_with_filter f (λ w, w ∈ b) (remove_dups a)).
  2:{ intros w _ Hw. apply count_of_zero in Hw. unfold f. lia. }
  rewrite <- (sum_list_with_filter f (λ w, w ∈ a) (remove_dups b)).
  2:{ intros w _ Hw. apply count_of_zero in Hw. unfold f. lia. }
  apply sum_list_with_Permutation_proper, NoDup_Permutation.
  - apply NoDup_filter, NoDup_remove_dups.
  - apply NoDup_filter, NoDup_remove_dups.
  - intros w. rewrite !list_elem_of_filter, !elem_of_remove_dups. tauto.
Qed.

Lemma overlap_le_r (a b : list string) : (overlap a b ≤ length b)%nat.
Proof. rewrite overlap_comm. apply overlap_le_l. Qed.

(** The comparison with 0.6 in whole numbers. *)
Lemma exceeds_threshold_nat (common longest : nat) :
  exceeds_threshold common longest = true ↔
  (0 < longest ∧ 3 * longest < 5 * common)%nat.
Proof.
  rewrite exceeds_threshold_ratio.
  destruct longest as [|n]; [split; intros [? _]; lia|].
  assert (6 # 10 < inject_Z (Z.of_nat common) / inject_Z (Z.of_nat (S n))
          ↔ (3 * S n < 5 * common)%nat)%Q as ->; [|split; [tauto|intros [? ?]; split; [lia|done]]].
  unfold Qlt, Qdiv, Qmult, Qinv, inject_Z.
  change (Z.of_nat (S n)) with (Z.pos (Pos.of_succ_nat n)).
  cbn [Qnum Qden]. 
  rewrite Pos2Z.inj_mul. change (Z.pos 1) with 1%Z.
  pose proof (Zle_0_nat common).
  assert (Z.pos (Pos.of_succ_nat n) = Z.of_nat (S n)) as -> by done.
  lia.
Qed.

Lemma wordsOf_empty : wordsOf "" = [].
Proof. reflexivity. Qed.

(** The filter predicate in whole numbers: five times the overlap exceeds
    three times the length of the longer word list. *)
Lemma isSimilar_nat (prompt : string) (msg : Message) :
  isSimilar prompt msg = true ↔
  (3 * Nat.max (length (wordsOf (content msg))) (length (wordsOf prompt))
   < 5 * overlap (wordsOf (content msg)) (wordsOf prompt))%nat.
Proof.
  unfold isSimilar. case_bool_decide as Hc.
  - rewrite Hc, wordsOf_empty, overlap_nil_l. split; [done|lia].
  - rewrite commonWords_overlap, exceeds_threshold_nat.
    split; [by intros [_ ?]|]. intros Hlt. split; [|done].
    pose proof (overlap_le_l (wordsOf (content msg)) (wordsOf prompt)). lia.
Qed.

(** X11: The check is symmetric: whether a text is similar to a prompt does not
    depend on which of the two is the prompt. *)
Theorem isSimilar_symmetric (m1 m2 : Message) :
  isSimilar (content m2) m1 = isSimilar (content m1) m2.
Proof.
  apply eq_true_iff_eq. rewrite !isSimilar_nat.
  by rewrite overlap_comm, Nat.max_comm.
Qed.

(** X12: A recent message that is the prompt up to letter case, and has a word,
    passes the filter, so the prompt is flagged. *)
Theorem isRepetitive_repeated_prompt
    (prompt : string) (recentMessages : list Message) (msg : Message) :
  msg ∈ recentMessages →
  toLowerCase (content msg) = toLowerCase prompt →
  wordsOf prompt ≠ [] →
  isSimilar prompt msg = true ∧ isRepetitive prompt recentMessages = true.
Proof.
  intros Hin Hlow Hwords.
  assert (wordsOf (content msg) = wordsOf prompt) as Hw
    by (unfold wordsOf; by rewrite Hlow).
  assert (isSimilar prompt msg = true) as Hsim.
  { apply isSimilar_nat. rewrite Hw, overlap_self, Nat.max_id.
    destruct (wordsOf prompt); [done|]. simpl. lia. }
  split; [done|]. unfold isRepetitive. apply bool_decide_eq_true_2.
  assert (msg ∈ similarMessages prompt recentMessages) as Hm
    by (by apply list_elem_of_filter).
  destruct (similarMessages prompt recentMessages); [by apply elem_of_nil in Hm|].
  simpl. lia.
Qed.

Lemma isRepetitive_repeated_prompt_witness :
  let msg := {| content := "Tell me a story"; role := "user";
                msg_userId := "u1"; msg_companionId := "c1" |} in
  isSimilar "tell me a STORY" msg = true ∧
  isRepetitive "tell me a STORY" [msg] = true.
Proof.
  refine (isRepetitive_repeated_prompt "tell me a STORY"
            [{| content := "Tell me a story"; role := "user";
                msg_userId := "u1"; msg_companionId := "c1" |}] _ _ _ _).
  - left.
  - reflexivity.
  - discriminate.
Defined.

(** X13: Texts of very different lengths are never similar: when the shorter
    word list has at most three fifths of the words of the longer, the
    message does not pass the filter. *)
Theorem isSimilar_length_gap (prompt : string) (msg : Message) :
  let a := length (wordsOf (content msg)) in
  let b := length (wordsOf prompt) in
  (5 * Nat.min a b ≤ 3 * Nat.max a b)%nat →
  isSimilar prompt msg = false.
Proof.
  intros a b Hgap. apply not_true_iff_false. rewrite isSimilar_nat.
  pose proof (overlap_le_l (wordsOf (content msg)) (wordsOf prompt)).
  pose proof (overlap_le_r (wordsOf (content msg)) (wordsOf prompt)).
  fold a b. lia.
Qed.

Lemma isSimilar_length_gap_witness :
  isSimilar "hi"
    {| content := "hi there how are you today"; role := "system";
       msg_userId := "u1"; msg_companionId := "c1" |} = false.
Proof.
  refine (isSimilar_length_gap "hi" _ _). vm_compute. lia.
Defined.

(** ** The history lines of the prompt *)

Lemma has_ink_rev_app (s acc : string) :
  has_ink (String.rev_app s acc) = has_ink s || has_ink acc.
Proof.
  revert acc. induction s as [|c s IH]; intros acc; [done|].
  cbn [String.rev_app has_ink]. rewrite IH. cbn [has_ink].
  by destruct (isWhiteSpace c), (has_ink s), (has_ink acc).
Qed.

Lemma has_ink_rev (s : string) : has_ink (String.rev s) = has_ink s.
Proof. unfold String.rev. rewrite has_ink_rev_app. simpl. apply orb_false_r. Qed.

Lemma has_ink_trimStart (s : string) : has_ink (trimStart s) = has_ink s.
Proof.
  induction s as [|c s IH]; [done|]. cbn [trimStart].
  destruct (isWhiteSpace c) eqn:Hc; [|done]. cbn [has_ink]. by rewrite Hc, IH.
Qed.

Lemma has_ink_trim (s : string) : has_ink (trim s) = has_ink s.
Proof.
  unfold trim.
  by rewrite has_ink_rev, has_ink_trimStart, has_ink_rev, has_ink_trimStart.
Qed.

Lemma trimStart_no_ink (s : string) : has_ink s = false → trimStart s = "".
Proof.
  induction s as [|c s IH]; [done|]. cbn [has_ink trimStart].
  destruct (isWhiteSpace c); [exact IH|done].
Qed.

(** A line passes the filter of the template exactly when it holds a
    character that is not white space. *)
Lemma trim_length_ink (s : string) :
  (0 < String.length (trim s))%nat ↔ has_ink s = true.
Proof.
  split.
  - destruct (has_ink s) eqn:Hink; [done|].
    unfold trim. rewrite (trimStart_no_ink s Hink). simpl. lia.
  - intros Hink. rewrite <- has_ink_trim in Hink.
    destruct (trim s); [done|simpl; lia].
Qed.

Lemma split_nl_line (p : string) :
  no_newline p = true → split_go nl 0 p = [p].
Proof.
  induction p as [|c p IH]; [done|]. cbn [no_newline].
  intros [Hc Hp]%andb_true_iff. apply bool_decide_eq_true in Hc.
  cbn [split_go]. unfold nl at 1. cbn [String.prefix].
  destruct (ascii_dec (ascii_of_nat 10) c) as [<-|_]; [done|].
  by rewrite (IH Hp).
Qed.

Lemma split_nl_app (p r : string) :
  no_newline p = true →
  split_go nl 0 (p +:+ nl +:+ r) = p :: split_go nl 0 r.
Proof.
  induction p as [|c p IH].
  - intros _. unfold nl at 2. rewrite append_cons.
    cbn [split_go]. unfold nl at 1. cbn [String.prefix].
    destruct (ascii_dec (ascii_of_nat 10) (ascii_of_nat 10)); [|done].
    by destruct r.
  - cbn [no_newline]. intros [Hc Hp]%andb_true_iff.
    apply bool_decide_eq_true in Hc. rewrite append_cons.
    cbn [split_go]. unfold nl at 1. cbn [String.prefix].
    destruct (ascii_dec (ascii_of_nat 10) c) as [<-|_]; [done|].
    by rewrite (IH Hp).
Qed.

(** Lines without a newline, joined by newlines, split into themselves. *)
Lemma split_join_nl (p : string) (ps : list string) :
  Forall (λ q, no_newline q = true) (p :: ps) →
  split nl (join nl (p :: ps)) = p :: ps.
Proof.
  change (split nl ?s) with (split_go nl 0 s). revert p.
  induction ps as [|q qs IH]; intros p [Hp Hall]%Forall_cons.
  - by apply split_nl_line.
  - change (join nl (p :: q :: qs)) with (p +:+ nl +:+ join nl (q :: qs)).
    by rewrite split_nl_app, IH.
Qed.

Lemma has_ink_append (a b : string) :
  has_ink (a +:+ b) = has_ink a || has_ink b.
Proof.
  induction a as [|c a IH]; [done|]. rewrite append_cons. cbn [has_ink].
  rewrite IH. by destruct (isWhiteSpace c).
Qed.

Lemma no_newline_append (a b : string) :
  no_newline (a +:+ b) = no_newline a && no_newline b.
Proof.
  induction a as [|c a IH]; [done|]. rewrite append_cons. cbn [no_newline].
  rewrite IH. by destruct (bool_decide (c ≠ ascii_of_nat 10)).
Qed.

Lemma format_message_ink (companion : Companion) (msg : Message) :
  has_ink (format_message companion msg) = true.
Proof.
  unfold format_message. rewrite !has_ink_append.
  apply orb_true_iff. right. done.
Qed.

Lemma format_message_no_newline (companion : Companion) (msg : Message) :
  no_newline (companion_name companion) = true →
  no_newline (content msg) = true →
  no_newline (format_message companion msg) = true.
Proof.
  intros Hn Hc. unfold format_message. rewrite !no_newline_append, Hc.
  by case_bool_decide; [|rewrite Hn].
Qed.

Lemma slice_last_slice_last {A} (n m : nat) (l : list A) :
  (n ≤ m)%nat → slice_last n (slice_last m l) = slice_last n l.
Proof.
  intros Hnm. unfold slice_last. rewrite drop_drop, length_drop.
  f_equal. lia.
Qed.

Lemma slice_last_reverse {A} (n : nat) (l : list A) :
  slice_last n (reverse l) = reverse (take n l).
Proof. unfold slice_last. by rewrite reverse_take, length_reverse. Qed.

(** X14: The template shows at most six lines of the history, none of them
    blank, all taken in their order from its last twelve lines; the rest
    of the prompt does not depend on the history. *)
Theorem createPromptTemplate_history_lines
    (name instructions prompt : string) (isRepetitive : bool)
    (lastResponse : string) :
  (∀ messageHistory,
     createPromptTemplate name instructions messageHistory
       isRepetitive lastResponse prompt
     = prompt_head name instructions
       +:+ join nl (recentMessages_of messageHistory)
       +:+ prompt_tail name prompt) ∧
  (∀ messageHistory,
     (length (recentMessages_of messageHistory) ≤ 6)%nat ∧
     Forall (λ line, has_ink line = true) (recentMessages_of messageHistory) ∧
     recentMessages_of messageHistory
       `sublist_of` slice_last 12 (split nl messageHistory)).
Proof.
  split.
  - intros messageHistory.
    unfold createPromptTemplate, prompt_head, prompt_tail.
    fold (recentMessages_of messageHistory).
    generalize (join nl (recentMessages_of messageHistory)). intros lines.
    by rewrite !append_assoc.
  - intros messageHistory. unfold recentMessages_of. split; [|split].
    + rewrite length_slice_last. lia.
    + apply Forall_drop, Forall_forall.
      intros line [Hl _]%list_elem_of_filter. by apply trim_length_ink.
    + etrans; [apply sublist_drop|apply sublist_filter].
Qed.

(** X15: The history that [POST] hands to the template: the recent messages,
    newest first as the relational store returns them, formatted and put
    oldest first. When the name of the persona and the messages hold no
    newline, the prompt shows the six newest messages, oldest first. *)
Theorem prompt_shows_six_newest
    (companion : Companion) (recentMessages : list Message) :
  let messageHistory :=
    join nl (reverse (format_message companion <$> recentMessages)) in
  no_newline (companion_name companion) = true →
  Forall (λ msg, no_newline (content msg) = true) recentMessages →
  recentMessages_of messageHistory
  = reverse (format_message companion <$> take 6 recentMessages).
Proof.
  intros messageHistory Hname Hmsgs. subst messageHistory.
  unfold recentMessages_of.
  destruct (reverse (format_message companion <$> recentMessages))
    as [|p ps] eqn:E.
  - apply (f_equal length) in E.
    rewrite length_reverse, length_fmap in E.
    destruct recentMessages; [done|simpl in E; lia].
  - rewrite split_join_nl.
    2:{ rewrite <- E. apply Forall_reverse, Forall_fmap.
        eapply Forall_impl; [exact Hmsgs|]. intros msg Hc. simpl.
        by apply format_message_no_newline. }
    rewrite filter_all.
    2:{ apply Forall_drop. rewrite <- E. apply Forall_reverse, Forall_fmap.
        apply Forall_forall. intros msg _. simpl.
        apply trim_length_ink, format_message_ink. }
    rewrite slice_last_slice_last by lia.
    by rewrite <- E, slice_last_reverse, fmap_take.
Qed.

Lemma prompt_shows_six_newest_witness :
  let turn r c := {| content := c; role := r;
                     msg_userId := "u1"; msg_companionId := "c1" |} in
  recentMessages_of
    (join nl (reverse (format_message example_companion
                         <$> [turn "system" "Hello!"; turn "user" "hi"])))
  = reverse (format_message example_companion
               <$> take 6 [turn "system" "Hello!"; turn "user" "hi"]).
Proof.
  refine (prompt_shows_six_newest example_companion _ _ _).
  - reflexivity.
  - repeat constructor.
Defined.

(** A message of several lines takes several of the six places. *)
Example recentMessages_of_multiline :
  let turn r c := {| content := c; role := r;
                     msg_userId := "u1"; msg_companionId := "c1" |} in
  recentMessages_of
    (join nl (reverse (format_message example_companion
       <$> [turn "system" ("1" +:+ nl +:+ "2" +:+ nl +:+ "3" +:+ nl +:+ "4"
                           +:+ nl +:+ "5" +:+ nl +:+ "6");
            turn "user" "count to six"])))
  = ["Ada: 1"; "2"; "3"; "4"; "5"; "6"].
Proof. by vm_compute. Qed.

(** ** What the stream hands on and what it writes *)

Lemma append_nil_r (s : string) : s +:+ "" = s.
Proof. induction s as [|c s IH]; [done|]. by rewrite append_cons, IH. Qed.

Lemma join_empty_cons (x : string) (l : list string) :
  join "" (x :: l) = x +:+ join "" l.
Proof. destruct l; [by rewrite append_nil_r|done]. Qed.

Lemma join_empty_filter (l : list string) :
  join "" (filter (λ t, t ≠ "") l) = join "" l.
Proof.
  induction l as [|x l IH]; [done|]. rewrite join_empty_cons.
  destruct (decide (x = "")) as [->|Hx].
  - by rewrite filter_cons_False by tauto.
  - by rewrite filter_cons_True, join_empty_cons, IH by done.
Qed.

(** The loop accumulates the texts of the parts and enqueues those that
    are not empty. *)
Lemma stream_loop_state (evs : list StreamEvent) (st : StreamState) (w : World) :
  (stream_loop evs st w).1 =
  {| fullResponse := fullResponse st +:+ join "" (part_texts evs);
     enqueued := enqueued st ++ filter (λ t, t ≠ "") (part_texts evs) |}.
Proof.
  revert st w. induction evs as [|[text|] rest IH]; intros st w.
  - cbn. rewrite append_nil_r, app_nil_r. by destruct st.
  - cbn [stream_loop part_texts]. rewrite join_empty_cons.
    case_bool_decide as Ht.
    + rewrite IH, Ht. by rewrite filter_cons_False by tauto.
    + rewrite IH. cbn [fullResponse enqueued].
      rewrite filter_cons_True by done.
      by rewrite append_assoc, <- app_assoc.
  - cbn [stream_loop part_texts]. apply IH.
Qed.

(** [start] by cases. *)
Lemma stream_start_cases (sv : Services) (chatId uid : string)
    (ck : option CompanionKey) (ms : ModelStream) (w : World) :
  let full := join "" (part_texts (events ms)) in
  let chunks := filter (λ t, t ≠ "") (part_texts (events ms)) in
  let out := stream_start sv chatId uid ck ms w in
  match failure ms with
  | Some _ =>
      out.1 = StreamingTextResponse chunks Errored ∧
      history out.2 = history w ∧ message_rows out.2 = message_rows w
  | None =>
      if bool_decide (1 < String.length full)%nat then
        history out.2
          = (writeToHistory (trim full) ck (date_now sv 3) (history w)).2 ∧
        match companion_update sv chatId (reply_row chatId uid full) with
        | Normal _ =>
            out.1 = StreamingTextResponse chunks Closed ∧
            message_rows out.2 = message_rows w ++ [reply_row chatId uid full]
        | Throw _ =>
            out.1 = StreamingTextResponse chunks Errored ∧
            message_rows out.2 = message_rows w
        end
      else
        out.1 = StreamingTextResponse chunks Closed ∧
        history out.2 = history w ∧ message_rows out.2 = message_rows w
  end.
Proof.
  intros full chunks out. subst out. unfold stream_start.
  pose proof (stream_loop_state (events ms)
                {| fullResponse := ""; enqueued := [] |} w) as Hst.
  pose proof (stream_loop_timer (events ms)
                {| fullResponse := ""; enqueued := [] |} w) as (_ & Hh & Hr).
  destruct (stream_loop (events ms) _ w) as [st w1].
  cbn [fst snd] in *. subst st. cbn [fullResponse enqueued].
  change ("" +:+ ?s) with s. change ([] ++ ?l) with l. fold full chunks.
  destruct (failure ms); [cbn [fst snd]; by rewrite Hh, Hr|].
  case_bool_decide; [|cbn [fst snd]; by rewrite Hh, Hr].
  rewrite Hh.
  destruct (writeToHistory (trim full) ck (date_now sv 3) (history w)) as [r d].
  unfold companion_update_call. fold (reply_row chatId uid full).
  destruct (companion_update sv chatId (reply_row chatId uid full));
    cbn; by rewrite Hr.
Qed.

(** X16: A stream that fails, or that ends with at most one character of text,
    writes nothing: the chunks already handed to the caller stay with it,
    and both stores are as before. *)
Theorem stream_start_writes_nothing
    (sv : Services) (chatId uid : string) (ck : option CompanionKey)
    (ms : ModelStream) (w : World) :
  let full := join "" (part_texts (events ms)) in
  let chunks := filter (λ t, t ≠ "") (part_texts (events ms)) in
  let out := stream_start sv chatId uid ck ms w in
  is_Some (failure ms) ∨ (String.length full ≤ 1)%nat →
  out.1 = StreamingTextResponse chunks
            (if failure ms is Some _ then Errored else Closed) ∧
  join "" chunks = full ∧
  history out.2 = history w ∧
  message_rows out.2 = message_rows w.
Proof.
  intros full chunks out Hcase.
  pose proof (stream_start_cases sv chatId uid ck ms w) as H.
  cbv zeta in H. fold full chunks out in H.
  assert (join "" chunks = full) as Hj by apply join_empty_filter.
  destruct (failure ms) as [e|]; [by destruct H as (? & ? & ?)|].
  destruct Hcase as [[? [=]]|Hlen].
  rewrite bool_decide_eq_false_2 in H by lia. by destruct H as (? & ? & ?).
Qed.

Lemma stream_start_writes_nothing_witness :
  let ms := {| events := [Part "O"; Part ""]; failure := None |} in
  let out := stream_start (example_services true ms) "c1" "u1"
               (Some example_key) ms empty_world in
  out.1 = StreamingTextResponse
            (filter (λ t, t ≠ "") (part_texts (events ms)))
            (if failure ms is Some _ then Errored else Closed) ∧
  join "" (filter (λ t, t ≠ "") (part_texts (events ms)))
    = join "" (part_texts (events ms)) ∧
  history out.2 = history empty_world ∧
  message_rows out.2 = message_rows empty_world.
Proof.
  refine (stream_start_writes_nothing
            (example_services true {| events := [Part "O"; Part ""]; failure := None |})
            "c1" "u1" (Some example_key)
            {| events := [Part "O"; Part ""]; failure := None |} empty_world _).
  right. vm_compute. lia.
Defined.

(** X17: A stream that ends normally with more than one character of text
    writes the trimmed text to the history store first; the relational
    store gets the row of the reply when its update succeeds, and when the
    update fails the stream is errored and the history store keeps what was
    written. The chunks handed to the caller spell the text before
    trimming. *)
Theorem stream_start_writes_reply
    (sv : Services) (chatId uid : string) (ck : option CompanionKey)
    (ms : ModelStream) (w : World) :
  let full := join "" (part_texts (events ms)) in
  let chunks := filter (λ t, t ≠ "") (part_texts (events ms)) in
  let out := stream_start sv chatId uid ck ms w in
  failure ms = None →
  (1 < String.length full)%nat →
  join "" chunks = full ∧
  history out.2
    = (writeToHistory (trim full) ck (date_now sv 3) (history w)).2 ∧
  (∀ u, companion_update sv chatId (reply_row chatId uid full) = Normal u →
     out.1 = StreamingTextResponse chunks Closed ∧
     message_rows out.2 = message_rows w ++ [reply_row chatId uid full]) ∧
  (∀ e, companion_update sv chatId (reply_row chatId uid full) = Throw e →
     out.1 = StreamingTextResponse chunks Errored ∧
     message_rows out.2 = message_rows w).
Proof.
  intros full chunks out Hfail Hlen.
  pose proof (stream_start_cases sv chatId uid ck ms w) as H.
  cbv zeta in H. fold full chunks out in H.
  rewrite Hfail, bool_decide_eq_true_2 in H by done.
  destruct H as [Hh Hu].
  split; [apply join_empty_filter|]. split; [done|].
  split; intros x Hx; by rewrite Hx in Hu.
Qed.

Lemma stream_start_writes_reply_witness :
  let ms := {| events := [Part "Once"; Part " upon "]; failure := None |} in
  let out := stream_start (example_services true ms) "c1" "u1"
               (Some example_key) ms empty_world in
  history out.2
  = (writeToHistory (trim (join "" (part_texts (events ms))))
       (Some example_key) (date_now (example_services true ms) 3)
       (history empty_world)).2.
Proof.
  refine (proj1 (proj2 (stream_start_writes_reply
            (example_services true {| events := [Part "Once"; Part " upon "]; failure := None |})
            "c1" "u1" (Some example_key)
            {| events := [Part "Once"; Part " upon "]; failure := None |}
            empty_world _ _))).
  - reflexivity.
  - vm_compute. lia.
Defined.

(** A reply of white space alone, two characters or more, is written as
    the empty text. *)
Example stream_start_blank_reply :
  let ms := {| events := [Part " "; Part " "]; failure := None |} in
  let out := stream_start (example_services true ms) "c1" "u1"
               (Some example_key) ms empty_world in
  out.1 = StreamingTextResponse [" "; " "] Closed ∧
  entries (generateRedisCompanionKey example_key) (history out.2) = [("", 1003)] ∧
  content <$> message_rows out.2 = [""].
Proof. by vm_compute. Qed.

(** ** The handler before and after its guards *)

(** X18: Without a parsed body or without a user the handler writes nothing:
    it answers 401 when the body parsed and there is no user, and 500
    otherwise, and both stores are as before. *)
Theorem POST_rejected_writes_nothing
    (sv : Services) (url chatId : string) (w : World) :
  let out := POST sv url chatId w in
  (∃ e, request_json sv = Throw e) ∨
  (∀ uid, currentUser sv = Normal (Some uid) → uid = "") →
  history out.2 = history w ∧
  message_rows out.2 = message_rows w ∧
  (out.1 = NextResponse "Unauthorized" 401 ∨
   out.1 = NextResponse "Internal Error" 500) ∧
  (out.1 = NextResponse "Unauthorized" 401 ↔
   (∃ prompt, request_json sv = Normal prompt) ∧
   (currentUser sv = Normal None ∨ currentUser sv = Normal (Some ""))).
Proof.
  intros out Hcase. subst out.
  unfold POST, POST_try, mbind, handler_bind, await, respond.
  destruct (request_json sv) as [prompt|e] eqn:Hjson.
  2:{ cbn. split; [done|]. split; [done|]. split; [by right|].
      split; [intros [=]|]. by intros [[? [=]] _]. }
  destruct Hcase as [[e [=]]|Hnouser].
  destruct (currentUser sv) as [[uid|]|e] eqn:Huser.
  - rewrite (Hnouser uid eq_refl). cbn.
    split; [done|]. split; [done|]. split; [by left|].
    split; [|done]. intros _. split; [by eexists|by right].
  - cbn. split; [done|]. split; [done|]. split; [by left|].
    split; [|done]. intros _. split; [by eexists|by left].
  - cbn. split; [done|]. split; [done|]. split; [by right|].
    split; [intros [=]|]. by intros [_ [[=]|[=]]].
Qed.

Lemma POST_rejected_writes_nothing_witness :
  let sv := {| request_json := Normal "hi"; currentUser := Normal None;
               ratelimit := λ _, Normal true;
               companion_findUnique := λ _ _, Normal None;
               message_create := λ _, Normal ();
               companion_update := λ _ _, Normal ();
               vector := failing_vector_service;
               chat_completions_create := λ _, Throw "unreachable";
               date_now := λ _, 0 |} in
  message_rows (POST sv "/api/chat/c1" "c1" empty_world).2
  = message_rows empty_world.
Proof.
  refine (proj1 (proj2 (POST_rejected_writes_nothing
    {| request_json := Normal "hi"; currentUser := Normal None;
       ratelimit := λ _, Normal true;
       companion_findUnique := λ _ _, Normal None;
       message_create := λ _, Normal ();
       companion_update := λ _ _, Normal ();
       vector := failing_vector_service;
       chat_completions_create := λ _, Throw "unreachable";
       date_now := λ _, 0 |} "/api/chat/c1" "c1" empty_world _))).
  right. intros uid. discriminate.
Defined.

Lemma POST_reply_ignores_similar_documents
    (sv : Services)
    (search : string → string → nat → Q → completion (list Document))
    (chatId uid prompt : string) (companion : Companion) (w : World) :
  POST_reply (with_similaritySearch sv search) chatId uid prompt companion w
  = POST_reply sv chatId uid prompt companion w.
Proof.
  unfold POST_reply, mbind, handler_bind, read_history, await, vectorSearch.
  cbn [vector with_similaritySearch fromExistingIndex similaritySearch date_now].
  destruct (readLatestHistory _ (date_now sv 0) _) as [records|]; [|done].
  destruct (readLatestHistory _ (date_now sv 1) _) as [latest|]; [|done].
  unfold mbind, completion_bind.
  destruct (fromExistingIndex (vector sv) _) as [store|e]; [|done].
  by destruct (search _ _ _ _), (similaritySearch (vector sv) _ _ _ _).
Qed.

(** X20: The documents that the vector search finds reach nothing: with any
    other similarity search, failing or not, the handler gives the same
    response and leaves the same stores. *)
Theorem POST_ignores_similar_documents
    (sv : Services)
    (search : string → string → nat → Q → completion (list Document))
    (url chatId : string) (w : World) :
  POST (with_similaritySearch sv search) url chatId w = POST sv url chatId w.
Proof.
  unfold POST, POST_try, mbind, handler_bind, await, settle, respond,
    message_create_call.
  cbn [with_similaritySearch request_json currentUser ratelimit
       companion_findUnique message_create].
  destruct (request_json sv) as [prompt|]; [|done].
  destruct (currentUser sv) as [[uid|]|]; [|done..].
  case_bool_decide; [done|].
  destruct (message_create sv _), (ratelimit sv _) as [[]|],
    (companion_findUnique sv chatId uid) as [[companion|]|]; try done.
  cbn. by rewrite POST_reply_ignores_similar_documents.
Qed.

(** X19: Nothing is rolled back: once the user's turn is written, a request
    that ends in 500 because the rate limit or the persona load failed, or
    in 404 because the persona is unknown, leaves the turn in the message
    table; a request whose write of the turn fails ends in 500 with both
    stores as before. *)
Theorem POST_keeps_user_turn_on_error
    (sv : Services) (url chatId prompt uid : string) (w : World) :
  let userTurn :=
    {| content := prompt; role := "user";
       msg_userId := uid; msg_companionId := chatId |} in
  let out := POST sv url chatId w in
  request_json sv = Normal prompt →
  currentUser sv = Normal (Some uid) → uid ≠ "" →
  (message_create sv userTurn = Normal () →
     ((∃ e, ratelimit sv (url +:+ "-" +:+ uid) = Throw e) ∨
      (∃ e, companion_findUnique sv chatId uid = Throw e) →
        out.1 = NextResponse "Internal Error" 500 ∧
        message_rows out.2 = message_rows w ++ [userTurn] ∧
        history out.2 = history w ∧ timer_pending out.2 = false) ∧
     (ratelimit sv (url +:+ "-" +:+ uid) = Normal true →
      companion_findUnique sv chatId uid = Normal None →
        out.1 = NextResponse "Companion not found" 404 ∧
        message_rows out.2 = message_rows w ++ [userTurn] ∧
        history out.2 = history w)) ∧
  (∀ e, message_create sv userTurn = Throw e →
     out.1 = NextResponse "Internal Error" 500 ∧
     message_rows out.2 = message_rows w ∧
     history out.2 = history w).
Proof.
  intros userTurn out Hjson Huser Huid. subst out. split.
  - intros Hcreate.
    rewrite (POST_authenticated sv url chatId prompt uid w Hjson Huser Huid Hcreate).
    fold userTurn. split.
    + intros [[e He]|[e He]]; rewrite He.
      * done.
      * by destruct (ratelimit sv _) as [[]|].
    + by intros -> ->.
  - intros e Hcreate.
    unfold POST, POST_try, mbind, handler_bind, await, settle, message_create_call.
    rewrite Hjson, Huser. cbv beta iota zeta.
    rewrite (bool_decide_eq_false_2 _ Huid). fold userTurn. rewrite Hcreate.
    by destruct (ratelimit sv _) as [[]|],
      (companion_findUnique sv chatId uid) as [[companion|]|].
Qed.

Lemma POST_keeps_user_turn_on_error_witness :
  let sv := {| request_json := Normal "hi"; currentUser := Normal (Some "u1");
               ratelimit := λ _, Normal true;
               companion_findUnique := λ _ _, Normal None;
               message_create := λ _, Normal ();
               companion_update := λ _ _, Normal ();
               vector := failing_vector_service;
               chat_completions_create := λ _, Throw "unreachable";
               date_now := λ _, 0 |} in
  let out := POST sv "/api/chat/zz" "zz" empty_world in
  out.1 = NextResponse "Companion not found" 404 ∧
  message_rows out.2
  = message_rows empty_world
    ++ [{| content := "hi"; role := "user";
           msg_userId := "u1"; msg_companionId := "zz" |}] ∧
  history out.2 = history empty_world.
Proof.
  refine (proj2 (proj1 (POST_keeps_user_turn_on_error
    {| request_json := Normal "hi"; currentUser := Normal (Some "u1");
       ratelimit := λ _, Normal true;
       companion_findUnique := λ _ _, Normal None;
       message_create := λ _, Normal ();
       companion_update := λ _ _, Normal ();
       vector := failing_vector_service;
       chat_completions_create := λ _, Throw "unreachable";
       date_now := λ _, 0 |} "/api/chat/zz" "zz" "hi" "u1" empty_world
    _ _ _) _) _ _); try reflexivity.
  discriminate.
Defined.

(** ** The home page *)

(** X24: [RootPage] renders what the two queries return when both succeed, and
    otherwise throws one fixed error, whatever the error of the query was.
    A search parameter that is the empty string filters as little as one
    that is absent. *)
Theorem RootPage_outcomes {Row Category : Type}
    (sv : HomeServices Row Category) (searchParams : SearchParams) :
  let filter_of p :=
    {| where_categoryId := or_undefined (params_categoryId p);
       where_name_contains := or_undefined (params_name p) |} in
  (∀ data categories,
     companion_findMany sv (filter_of searchParams) = Normal data →
     category_findMany sv = Normal categories →
     RootPage sv searchParams
     = Normal {| view_categories := categories; view_data := data |}) ∧
  ((∃ e, companion_findMany sv (filter_of searchParams) = Throw e) ∨
   (∃ e, category_findMany sv = Throw e) →
     RootPage sv searchParams = Throw "Failed to fetch companion data") ∧
  RootPage sv {| params_categoryId := Some ""; params_name := Some "" |}
  = RootPage sv {| params_categoryId := None; params_name := None |}.
Proof.
  intros filter_of. unfold RootPage. fold (filter_of searchParams).
  split; [|split].
  - by intros data categories -> ->.
  - intros [[e ->]|[e He]]; [done|]. rewrite He.
    by destruct (companion_findMany sv _).
  - done.
Qed.

(** ** Failures after the guards *)

Lemma readLatestHistory_no_key (ck : option CompanionKey) (now : Z) (d : db) :
  (∀ c, ck = Some c → exists_ (generateRedisCompanionKey c) d = false) →
  readLatestHistory ck now d = Normal "".
Proof.
  intros Hex. destruct ck as [c|]; [|done]. unfold readLatestHistory.
  destruct (key_set_incorrectly (Some c)); [done|].
  specialize (Hex c eq_refl). unfold exists_ in Hex.
  apply bool_decide_eq_false in Hex.
  unfold RedisClient.zrange, zrange_byScore, entries, zset_of.
  destruct (d !! generateRedisCompanionKey c) eqn:E; [by destruct Hex|].
  cbn [default]. by rewrite map_to_list_empty.
Qed.

(** X21: When the handle on the vector store cannot be had, the handler ends in
    500 before anything is written to the history store. *)
Theorem POST_reply_vector_store_failure
    (sv : Services) (chatId uid prompt e : string) (companion : Companion)
    (w : World) :
  fromExistingIndex (vector sv) (companion_id companion +:+ ".txt") = Throw e →
  catch_all (POST_reply sv chatId uid prompt companion w)
  = (NextResponse "Internal Error" 500, clear_timer w).
Proof.
  intros Hstore.
  unfold POST_reply, mbind, handler_bind, read_history, await.
  destruct (readLatestHistory _ (date_now sv 0) _) as [records|]; [|done].
  destruct (readLatestHistory _ (date_now sv 1) _) as [latest|]; [|done].
  by rewrite (vectorSearch_store_error _ _ _ e Hstore).
Qed.

Lemma POST_reply_vector_store_failure_witness :
  let sv := {| request_json := Normal "hi"; currentUser := Normal (Some "u1");
               ratelimit := λ _, Normal true;
               companion_findUnique := λ _ _, Normal (Some example_companion);
               message_create := λ _, Normal ();
               companion_update := λ _ _, Normal ();
               vector := {| fromExistingIndex := λ _, Throw "no index";
                            similaritySearch := λ _ _ _ _, Normal [] |};
               chat_completions_create := λ _, Throw "unreachable";
               date_now := λ _, 0 |} in
  catch_all (POST_reply sv "c1" "u1" "hi" example_companion empty_world)
  = (NextResponse "Internal Error" 500, clear_timer empty_world).
Proof.
  refine (POST_reply_vector_store_failure _ "c1" "u1" "hi" "no index"
            example_companion empty_world _).
  reflexivity.
Defined.

(** X22: When both reads of the history answer and the generation cannot be
    started, the handler ends in 500 and nothing is taken back: the
    history store holds the user's turn with the time of its append, after
    the seed when the key did not exist, and without a seed when the
    history read was not empty. No reply is written. *)
Theorem POST_reply_generation_failure
    (sv : Services) (chatId uid prompt e store records latest : string)
    (companion : Companion) (w : World) :
  let ck := {| companionName := companion_id companion;
               modelName := "gpt-4"; userId := Some uid |} in
  let key := generateRedisCompanionKey ck in
  let userText := "User: " +:+ prompt +:+ nl in
  let out := catch_all (POST_reply sv chatId uid prompt companion w) in
  readLatestHistory (Some ck) (date_now sv 0) (history w) = Normal records →
  readLatestHistory (Some ck) (date_now sv 1) (history w) = Normal latest →
  fromExistingIndex (vector sv) (companion_id companion +:+ ".txt")
    = Normal store →
  (∀ promptContent, chat_completions_create sv promptContent = Throw e) →
  out.1 = NextResponse "Internal Error" 500 ∧
  message_rows out.2 = message_rows w ∧
  zscore key userText (history out.2) = Some (date_now sv 2) ∧
  (exists_ key (history w) = false →
     history out.2
     = (writeToHistory userText (Some ck) (date_now sv 2)
          (seed_lines key (split (nl +:+ nl) (seed companion)) 0 (history w))).2) ∧
  (records ≠ "" →
     history out.2
     = (writeToHistory userText (Some ck) (date_now sv 2) (history w)).2).
Proof.
  intros ck key userText out Hrecords Hlatest Hstore Hcreate. subst out.
  unfold POST_reply, mbind, handler_bind, read_history, await, vectorSearch.
  fold ck userText. rewrite Hrecords, Hlatest, Hstore.
  unfold mbind, completion_bind.
  assert (∀ d, zscore key userText
                 (writeToHistory userText (Some ck) (date_now sv 2) d).2
               = Some (date_now sv 2)) as Hscore.
  { intros d; subst ck key; rewrite writeToHistory_store; cbn [snd];
      unfold zscore; by rewrite zset_of_zadd, lookup_insert_eq. }
  destruct (similaritySearch (vector sv) store _ 5%nat (7 # 10)) as [docs|err].
  all: case_bool_decide as Hrec.
  all: unfold seed_history, seedChatHistory, write_history; fold key.
  all: try destruct (exists_ key (history w)) eqn:Hex.
  all: cbn [history set_history message_rows mret handler_ret].
  all: try (destruct (writeToHistory userText (Some ck) (date_now sv 2) _)
              as [r d2] eqn:Hw);
       rewrite Hcreate; cbn.
  all: try (apply (f_equal snd) in Hw; cbn [snd] in Hw; subst d2).
  all: split; [done|]; split; [done|]; split; [apply Hscore|].
  all: split; [intros Hex'|intros Hne]; try done.
  all: try (by destruct records).
  all: exfalso; apply Hrec.
  all: rewrite readLatestHistory_no_key in Hrecords by (by intros c [= <-]).
  all: by injection Hrecords as <-.
Qed.

Lemma POST_reply_generation_failure_witness :
  let sv := {| request_json := Normal "hi"; currentUser := Normal (Some "u1");
               ratelimit := λ _, Normal true;
               companion_findUnique := λ _ _, Normal (Some example_companion);
               message_create := λ _, Normal ();
               companion_update := λ _ _, Normal ();
               vector := failing_vector_service;
               chat_completions_create := λ _, Throw "model unavailable";
               date_now := λ n, 1000 + Z.of_nat n |} in
  let out := catch_all (POST_reply sv "c1" "u1" "hi" example_companion empty_world) in
  out.1 = NextResponse "Internal Error" 500 ∧
  message_rows out.2 = message_rows empty_world.
Proof.
  refine (let H := POST_reply_generation_failure _ "c1" "u1" "hi"
                     "model unavailable" "c1.txt" "" "" example_companion
                     empty_world _ _ _ _ in conj (proj1 H) (proj1 (proj2 H))).
  - reflexivity.
  - reflexivity.
  - reflexivity.
  - reflexivity.
Defined.

Example POST_reply_generation_failure_history :
  let sv := {| request_json := Normal "hi"; currentUser := Normal (Some "u1");
               ratelimit := λ _, Normal true;
               companion_findUnique := λ _ _, Normal (Some example_companion);
               message_create := λ _, Normal ();
               companion_update := λ _ _, Normal ();
               vector := failing_vector_service;
               chat_completions_create := λ _, Throw "model unavailable";
               date_now := λ n, 1000 + Z.of_nat n |} in
  let out := catch_all (POST_reply sv "c1" "u1" "hi" example_companion empty_world) in
  entries "c1-gpt-4-u1" (history out.2)
  = [("Human: Hi", 0); ("Ada: Hello!", 1); ("User: hi" +:+ nl, 1002)].
Proof. by vm_compute. Qed.

(** ** Keys that coincide *)

(** X9: The key joins its three parts with hyphens and so does not tell where
    one part ends: a persona whose name goes on with the model and the
    first part of a user shares its key, and with it its history, with
    the shorter persona and the longer user. *)
Theorem generateRedisCompanionKey_collision
    (cn mn x u : string) (now : Z) (d : db) :
  let ck1 := {| companionName := cn +:+ "-" +:+ mn +:+ "-" +:+ x;
                modelName := mn; userId := Some u |} in
  let ck2 := {| companionName := cn; modelName := mn;
                userId := Some (x +:+ "-" +:+ mn +:+ "-" +:+ u) |} in
  generateRedisCompanionKey ck1 = generateRedisCompanionKey ck2 ∧
  readLatestHistory (Some ck1) now d = readLatestHistory (Some ck2) now d ∧
  (∀ text t, (writeToHistory text (Some ck1) t d).2
             = (writeToHistory text (Some ck2) t d).2).
Proof.
  intros ck1 ck2.
  assert (generateRedisCompanionKey ck1 = generateRedisCompanionKey ck2) as Hk.
  { unfold generateRedisCompanionKey. cbn. by rewrite !append_assoc. }
  split; [done|]. split.
  - unfold readLatestHistory. cbn [key_set_incorrectly userId ck1 ck2].
    rewrite !bool_decide_eq_false_2 by done. by rewrite Hk.
  - intros text t. subst ck1 ck2. rewrite !writeToHistory_store.
    cbn [snd]. by rewrite Hk.
Qed.

(** A key without a user derives the key of the user whose id is the word
    undefined: what [seedChatHistory] writes under the one is read under
    the other. *)
Lemma generateRedisCompanionKey_undefined_user
    (cn mn seedContent delimiter : string) (now : Z) (d : db) :
  let broken := {| companionName := cn; modelName := mn; userId := None |} in
  let named := {| companionName := cn; modelName := mn;
                  userId := Some "undefined" |} in
  generateRedisCompanionKey broken = generateRedisCompanionKey named ∧
  seedChatHistory seedContent delimiter (Some broken) d
  = seedChatHistory seedContent delimiter (Some named) d.
Proof. done. Qed.

(** ** The request that succeeds *)

Lemma stream_response_run (sv : Services) (chatId uid : string)
    (ck : option CompanionKey) (ms : ModelStream) (w : World) :
  catch_all (stream_response sv chatId uid ck ms w)
  = stream_start sv chatId uid ck ms w.
Proof.
  unfold stream_response. by destruct (stream_start sv chatId uid ck ms w).
Qed.

(** What [POST_reply] does when the reads of the history, the vector
    store and the model answer: the history store it hands to the stream
    holds the user's turn. *)
Lemma POST_reply_streams
    (sv : Services) (chatId uid prompt store records latest : string)
    (companion : Companion) (ms : ModelStream) (w : World) :
  let ck := {| companionName := companion_id companion;
               modelName := "gpt-4"; userId := Some uid |} in
  let userText := "User: " +:+ prompt +:+ nl in
  readLatestHistory (Some ck) (date_now sv 0) (history w) = Normal records →
  readLatestHistory (Some ck) (date_now sv 1) (history w) = Normal latest →
  fromExistingIndex (vector sv) (companion_id companion +:+ ".txt")
    = Normal store →
  (∀ promptContent, chat_completions_create sv promptContent = Normal ms) →
  ∃ w2 d1,
    catch_all (POST_reply sv chatId uid prompt companion w)
    = stream_start sv chatId uid (Some ck) ms w2 ∧
    message_rows w2 = message_rows w ∧
    history w2 = (writeToHistory userText (Some ck) (date_now sv 2) d1).2.
Proof.
  intros ck userText Hrecords Hlatest Hstore Hcreate.
  unfold POST_reply, mbind, handler_bind, read_history, await, vectorSearch.
  fold ck userText. rewrite Hrecords, Hlatest, Hstore.
  unfold mbind, completion_bind.
  destruct (similaritySearch (vector sv) store _ 5%nat (7 # 10)) as [docs|err].
  all: case_bool_decide as Hrec.
  all: unfold seed_history, seedChatHistory, write_history.
  all: try destruct (exists_ (generateRedisCompanionKey ck) (history w)) eqn:Hex.
  all: cbn [history set_history message_rows mret handler_ret].
  all: try (destruct (writeToHistory userText (Some ck) (date_now sv 2) _)
              as [r d2] eqn:Hw);
       rewrite Hcreate.
  all: apply (f_equal snd) in Hw; cbn [snd] in Hw; subst d2.
  all: rewrite stream_response_run.
  all: by eexists _, _.
Qed.

(** A history that cannot be read: when a read throws, the handler ends in
    500 and nothing is written by it after the user's row. *)
Lemma POST_reply_unreadable_history
    (sv : Services) (chatId uid prompt e : string)
    (companion : Companion) (w : World) :
  let ck := {| companionName := companion_id companion;
               modelName := "gpt-4"; userId := Some uid |} in
  readLatestHistory (Some ck) (date_now sv 0) (history w) = Throw e ∨
  readLatestHistory (Some ck) (date_now sv 1) (history w) = Throw e →
  catch_all (POST_reply sv chatId uid prompt companion w)
  = (NextResponse "Internal Error" 500, clear_timer w).
Proof.
  intros ck Hread.
  unfold POST_reply, mbind, handler_bind, read_history, await. fold ck.
  destruct Hread as [->|Hlatest]; [done|].
  destruct (readLatestHistory _ (date_now sv 0) _) as [records|]; [|done].
  by rewrite Hlatest.
Qed.

(** X23: The request that succeeds: authenticated, within the rate limit, for a
    known persona, with both reads of the history, the vector store and the
    model answering and a reply of more than one character. The caller
    receives the parts of the reply that are not empty and the stream
    closes; the message table gains the user's turn and then the reply; the
    history store holds the trimmed reply with the time of its append, and
    the user's turn with the time of its own. *)
Theorem POST_success
    (sv : Services) (url chatId prompt uid store records latest : string)
    (companion : Companion) (ms : ModelStream) (w : World) :
  let userTurn :=
    {| content := prompt; role := "user";
       msg_userId := uid; msg_companionId := chatId |} in
  let ck := {| companionName := companion_id companion;
               modelName := "gpt-4"; userId := Some uid |} in
  let key := generateRedisCompanionKey ck in
  let userText := "User: " +:+ prompt +:+ nl in
  let full := join "" (part_texts (events ms)) in
  let chunks := filter (λ t, t ≠ "") (part_texts (events ms)) in
  let out := POST sv url chatId w in
  request_json sv = Normal prompt →
  currentUser sv = Normal (Some uid) → uid ≠ "" →
  message_create sv userTurn = Normal () →
  ratelimit sv (url +:+ "-" +:+ uid) = Normal true →
  companion_findUnique sv chatId uid = Normal (Some companion) →
  readLatestHistory (Some ck) (date_now sv 0) (history w) = Normal records →
  readLatestHistory (Some ck) (date_now sv 1) (history w) = Normal latest →
  fromExistingIndex (vector sv) (companion_id companion +:+ ".txt")
    = Normal store →
  (∀ promptContent, chat_completions_create sv promptContent = Normal ms) →
  failure ms = None →
  (1 < String.length full)%nat →
  companion_update sv chatId (reply_row chatId uid full) = Normal () →
  out.1 = StreamingTextResponse chunks Closed ∧
  message_rows out.2
    = message_rows w ++ [userTurn; reply_row chatId uid full] ∧
  zscore key (trim full) (history out.2) = Some (date_now sv 3) ∧
  (trim full ≠ userText →
     zscore key userText (history out.2) = Some (date_now sv 2)).
Proof.
  intros userTurn ck key userText full chunks out
    Hjson Huser Huid Hcreate Hlimit Hfound Hrecords Hlatest
    Hstore Hmodel Hfail Hlen Hupdate.
  subst out.
  rewrite (POST_authenticated sv url chatId prompt uid w Hjson Huser Huid Hcreate).
  rewrite Hlimit, Hfound. fold userTurn.
  destruct (POST_reply_streams sv chatId uid prompt store records latest
              companion ms (add_row userTurn (arm_timer w))
              Hrecords Hlatest Hstore Hmodel)
    as (w2 & d1 & -> & Hrows & Hhist).
  fold ck userText in Hhist |- *.
  pose proof (stream_start_cases sv chatId uid (Some ck) ms w2) as H.
  cbv zeta in H. fold full chunks in H.
  rewrite Hfail, bool_decide_eq_true_2, Hupdate in H by done.
  destruct H as (Hh & -> & ->).
  split; [done|]. split.
  { rewrite Hrows. cbn [message_rows add_row arm_timer]. by rewrite <- app_assoc. }
  rewrite Hh, Hhist. subst ck key.
  rewrite !writeToHistory_store. cbn [snd]. unfold zscore.
  rewrite !zset_of_zadd. split; [by rewrite lookup_insert_eq|].
  intros Hne. by rewrite lookup_insert_ne, lookup_insert_eq.
Qed.

Lemma POST_success_witness :
  let ms := {| events := [Part "Once"; Part " upon"]; failure := None |} in
  let out := POST (example_services true ms) "/api/chat/c1" "c1" empty_world in
  out.1 = StreamingTextResponse
            (filter (λ t, t ≠ "") (part_texts (events ms))) Closed ∧
  message_rows out.2
  = message_rows empty_world
    ++ [{| content := "tell me a story"; role := "user";
           msg_userId := "u1"; msg_companionId := "c1" |};
        reply_row "c1" "u1" (join "" (part_texts (events ms)))].
Proof.
  refine (let H := POST_success
            (example_services true {| events := [Part "Once"; Part " upon"]; failure := None |})
            "/api/chat/c1" "c1" "tell me a story" "u1" "c1.txt" "" ""
            example_companion
            {| events := [Part "Once"; Part " upon"]; failure := None |}
            empty_world _ _ _ _ _ _ _ _ _ _ _ _ _
          in conj (proj1 H) (proj1 (proj2 H))); try reflexivity.
  - discriminate.
  - vm_compute. lia.
Defined.

(** ** A history that cannot be read *)

(** X25: When a read of the history throws, as it does once an entry among
    those read is JSON for an object with a field [toString], a request
    that is authenticated, within the rate limit and for a known persona
    ends in 500: its turn is in the message table, and the history store
    is as it was, without seed and without the turn. *)
Theorem POST_unreadable_history
    (sv : Services) (url chatId prompt uid e : string)
    (companion : Companion) (w : World) :
  let userTurn :=
    {| content := prompt; role := "user";
       msg_userId := uid; msg_companionId := chatId |} in
  let ck := {| companionName := companion_id companion;
               modelName := "gpt-4"; userId := Some uid |} in
  let out := POST sv url chatId w in
  request_json sv = Normal prompt →
  currentUser sv = Normal (Some uid) → uid ≠ "" →
  message_create sv userTurn = Normal () →
  ratelimit sv (url +:+ "-" +:+ uid) = Normal true →
  companion_findUnique sv chatId uid = Normal (Some companion) →
  readLatestHistory (Some ck) (date_now sv 0) (history w) = Throw e ∨
  readLatestHistory (Some ck) (date_now sv 1) (history w) = Throw e →
  out.1 = NextResponse "Internal Error" 500 ∧
  message_rows out.2 = message_rows w ++ [userTurn] ∧
  history out.2 = history w.
Proof.
  intros userTurn ck out Hjson Huser Huid Hcreate Hlimit Hfound Hread.
  subst out.
  rewrite (POST_authenticated sv url chatId prompt uid w Hjson Huser Huid Hcreate).
  rewrite Hlimit, Hfound. fold userTurn.
  by rewrite (POST_reply_unreadable_history sv chatId uid prompt e companion
                (add_row userTurn (arm_timer w)) Hread).
Qed.

(** The model answers a first request with such an object; the reply is
    written to the history, and the next request of the user to this
    persona ends in 500. *)
Lemma POST_unreadable_history_witness :
  let reply := "{" +:+ quote +:+ "toString" +:+ quote +:+ ":1}" in
  let first := example_services true {| events := [Part reply]; failure := None |} in
  let w1 := (POST first "/api/chat/c1" "c1" empty_world).2 in
  let next :=
    {| request_json := Normal "and then?";
       currentUser := Normal (Some "u1");
       ratelimit := λ _, Normal true;
       companion_findUnique := λ _ _, Normal (Some example_companion);
       message_create := λ _, Normal ();
       companion_update := λ _ _, Normal ();
       vector := failing_vector_service;
       chat_completions_create :=
         λ _, Normal {| events := [Part "Once"]; failure := None |};
       date_now := λ n, 2000 + Z.of_nat n |} in
  let out := POST next "/api/chat/c1" "c1" w1 in
  out.1 = NextResponse "Internal Error" 500 ∧
  message_rows out.2
  = message_rows w1
    ++ [{| content := "and then?"; role := "user";
           msg_userId := "u1"; msg_companionId := "c1" |}] ∧
  history out.2 = history w1.
Proof.
  intros reply first w1 next.
  refine (POST_unreadable_history next "/api/chat/c1" "c1" "and then?" "u1"
            "TypeError" example_companion w1 _ _ _ _ _ _ _);
    try reflexivity.
  - discriminate.
  - left. by vm_compute.
Defined.

Example POST_unreadable_history_entries :
  let reply := "{" +:+ quote +:+ "toString" +:+ quote +:+ ":1}" in
  let first := example_services true {| events := [Part reply]; failure := None |} in
  let out := POST first "/api/chat/c1" "c1" empty_world in
  out.1 = StreamingTextResponse [reply] Closed ∧
  entries "c1-gpt-4-u1" (history out.2)
  = [("Human: Hi", 0); ("Ada: Hello!", 1);
     ("User: tell me a story" +:+ nl, 1002); (reply, 1003)].
Proof. by vm_compute. Qed.
